(** * TempestRemap command-line tools: GenerateRLLMesh, GenerateTestData,
      GenerateOverlapMeshExe_v1

    A shallow embedding of the three programs under [src/] and the
    properties of them that the specification states.

    Conventions of the embedding:
    - a C++ [int] is a [Z]; the programs are modelled on the range where
      no signed overflow happens (signed overflow is undefined in C++);
      [%] on [int] is [Z.rem] (truncation towards zero);
    - a C++ [double] is an abstract type with the operations the programs
      use (class [DoubleOps]); the numeric theorems instantiate it with
      the real numbers, the rounded operations being related to the exact
      ones by error bounds or by a monotone rounding;
    - a [try] block is a computation in the monad [Run], whose results are
      a value, a thrown object, or undefined behaviour (an out-of-range
      array access);
    - writes to [std::cout] and [Announce] are left out: no property here
      depends on the text printed. *)

From Stdlib Require Import ZArith String List Bool Lia Reals Lra Psatz.
Import ListNotations.

Open Scope Z_scope.

(* ================================================================== *)
(** * C++ run-time notions shared by the three programs *)

Module Cxx.

(** What a [throw] carries: the repository's [Exception] class (raised by
    the [_EXCEPTIONT] and [_EXCEPTION1] macros) or any other object. *)
Inductive Thrown : Type :=
| Exception (msg : string)
| OtherThrown.

(** The result of running a block of code. *)
Inductive Run (A : Type) : Type :=
| Done (a : A)
| Raise (t : Thrown)
| Undefined.

Arguments Done {A} a.
Arguments Raise {A} t.
Arguments Undefined {A}.

Definition bind {A B : Type} (m : Run A) (k : A -> Run B) : Run B :=
  match m with
  | Done a => k a
  | Raise t => Raise t
  | Undefined => Undefined
  end.

Definition _EXCEPTIONT {A : Type} (msg : string) : Run A :=
  Raise (Exception msg).

(** [for (int i = lo; i < hi; i++)]: the values the counter takes. *)
Definition for_range (lo hi : Z) : list Z :=
  map (fun k => lo + Z.of_nat k) (seq 0 (Z.to_nat (hi - lo))).

(** A loop whose body appends its results to a vector. *)
Fixpoint for_each {A : Type} (l : list Z) (body : Z -> Run (list A))
  : Run (list A) :=
  match l with
  | [] => Done []
  | i :: l' =>
      bind (body i) (fun r =>
      bind (for_each l' body) (fun rs => Done (r ++ rs)))
  end.

(** [DataVector] and [std::vector] are lists; [v.GetRows()], [v.size()]. *)
Definition GetRows {A : Type} (v : list A) : Z := Z.of_nat (List.length v).

(** [v[i]] as a read: unchecked in C++, undefined outside [0, size). *)
Definition at_ {A : Type} (v : list A) (i : Z) : Run A :=
  if i <? 0 then Undefined
  else match nth_error v (Z.to_nat i) with
       | Some a => Done a
       | None => Undefined
       end.

(** The two [catch] clauses that close [main] in GenerateRLLMesh.cpp and
    GenerateTestData.cpp, after [return (0)] at the end of the [try]
    block.  Undefined behaviour has no exit code. *)
Definition main_try (body : Run unit) : option Z :=
  match body with
  | Done _ => Some 0
  | Raise (Exception _) => Some (-1)
  | Raise OtherThrown => Some (-2)
  | Undefined => None
  end.





(** Modelled from the spec: the option macros of CommandLine.h, which is
    not under [src/] ("command-line argument parsing" is an external
    collaborator).  An option that is absent from the command line has
    the default value of its declaration. *)
Definition CommandLineOption {A : Type} (given : option A) (default : A) : A :=
  match given with
  | Some v => v
  | None => default
  end.

End Cxx.

Import Cxx.

Notation "x <- m ;; k" := (bind m (fun x => k))
  (at level 61, m at next level, right associativity).

(* ================================================================== *)
(** * Doubles *)

(** The operations on [double] that the programs use.  [d_lit m e] is the
    literal [m * 10^e] ([0.5] is [d_lit 5 (-1)], [1.0e-12] is
    [d_lit 1 (-12)]); [d_of_int] is [static_cast<double>(int)]. *)
Class DoubleOps (D : Type) : Type := {
  d_lit : Z -> Z -> D;
  d_of_int : Z -> D;
  M_PI : D;
  d_add : D -> D -> D;
  d_sub : D -> D -> D;
  d_mul : D -> D -> D;
  d_div : D -> D -> D;
  d_cos : D -> D;
  d_sin : D -> D;
  d_asin : D -> D;
  d_atan2 : D -> D -> D;
  d_cosh : D -> D;
  d_tanh : D -> D;
  d_sqrt : D -> D;
  d_pow : D -> D -> D;
  d_fabs : D -> D;
  d_fmod : D -> D -> D;
  d_lt : D -> D -> bool;
  d_le : D -> D -> bool;
  d_eqb : D -> D -> bool
}.

(* ================================================================== *)
(** * GridElements: nodes, edges, faces, meshes *)

Module GridElements.

(** Modelled from the spec: "Node: a unit vector in 3-space (x, y, z)"
    (GridElements.h, not under [src/]); [Node(dX, dY, dZ)] is [mkNode]. *)
Record Node (D : Type) : Type := mkNode { x : D; y : D; z : D }.

Arguments mkNode {D} x y z.
Arguments x {D} n.
Arguments y {D} n.
Arguments z {D} n.

(** Modelled from the spec: the declarations of [Edge] and [Face] are in
    GridElements.h, which is not under [src/].  "Edge: a typed arc between
    two nodes.  Type in {GreatCircle, ConstantLatitude} ... it references
    node indices."  The macro name [ONLY_GREAT_CIRCLES], which guards the
    only assignments of [Type_ConstantLatitude], names the type an edge has
    when it is not assigned: the great-circle arc. *)
Inductive EdgeType : Type :=
| Type_GreatCircle
| Type_ConstantLatitude.

(** Modelled from the spec: the type of an edge that was not assigned one
    (GridElements.h), see [EdgeType]. *)
Definition Type_Default : EdgeType := Type_GreatCircle.

(** Modelled from the spec: the index held by a slot before [SetNode]
    (GridElements.h); no node has it. *)
Definition InvalidNode : Z := -1.

(** Modelled from the spec: "an edge does not own its endpoints, it
    references node indices" (GridElements.h). *)
Record Edge : Type := mkEdge { node0 : Z; node1 : Z; type : EdgeType }.

(** Modelled from the spec: "Face: an ordered, closed loop of node indices
    (>= 3), with one Edge descriptor per consecutive pair, implicitly
    closing last -> first."  Edge [k] runs from node [k] of the loop to
    node [k+1], the last edge back to node [0]. *)
Record Face : Type := mkFace { edges : list Edge }.

(** Modelled from the spec: [Face face(n)] (GridElements.h), a face of
    [n] edges of the default type, no node set yet. *)
Definition Face_new (n : nat) : Face :=
  mkFace (repeat (mkEdge InvalidNode InvalidNode Type_Default) n).

Fixpoint update {A : Type} (l : list A) (k : nat) (g : A -> A) : list A :=
  match l, k with
  | [], _ => []
  | a :: l', O => g a :: l'
  | a :: l', S k' => a :: update l' k' g
  end.

(** Modelled from the spec: [face.SetNode(ixLocal, ixNode)]
    (GridElements.h).  With "one Edge descriptor per consecutive pair,
    implicitly closing last -> first", node [ixLocal] of the loop starts
    edge [ixLocal] and ends the edge before it. *)
Definition SetNode (face : Face) (ixLocal ixNode : Z) : Face :=
  let nEdges := Z.of_nat (List.length (edges face)) in
  let ixPrev := Z.rem (ixLocal + nEdges - 1) nEdges in
  let es := update (edges face) (Z.to_nat ixLocal)
              (fun e => mkEdge ixNode (node1 e) (type e)) in
  mkFace (update es (Z.to_nat ixPrev)
            (fun e => mkEdge (node0 e) ixNode (type e))).

(** [face.edges[k].type = t]. *)
Definition SetEdgeType (face : Face) (k : nat) (t : EdgeType) : Face :=
  mkFace (update (edges face) k (fun e => mkEdge (node0 e) (node1 e) t)).

(** The node indices of the loop, in order. *)
Definition Face_nodes (face : Face) : list Z := map node0 (edges face).




(** [face.edges[k].type]. *)
Definition edge_type (face : Face) (k : nat) : option EdgeType :=
  option_map type (nth_error (edges face) k).

(** Modelled from the spec: "Mesh: owns a sequence of Nodes (insertion
    order = index) and a sequence of Faces referencing node indices"
    (GridElements.h). *)
Record Mesh (D : Type) : Type :=
  mkMesh { nodes : list (Node D); faces : list Face }.

Arguments mkMesh {D} nodes faces.
Arguments nodes {D} m.
Arguments faces {D} m.

End GridElements.

Import GridElements.

(* ================================================================== *)
(** * GenerateRLLMesh.cpp *)

Module GenerateRLLMesh.

(** [#define ONLY_GREAT_CIRCLES] (line 29). *)
Definition ONLY_GREAT_CIRCLES : bool := true.

(** The block between [#ifndef ONLY_GREAT_CIRCLES] and [#endif], which the
    preprocessor keeps only when the macro is not defined. *)
Definition ifndef_ONLY_GREAT_CIRCLES (defined : bool) (face : Face) : Face :=
  if defined then face
  else
    let face := SetEdgeType face 1 Type_ConstantLatitude in
    SetEdgeType face 3 Type_ConstantLatitude.

(** The edge types of a face built with the macro defined, and without. *)
Definition quad_edge_types (defined : bool) : list EdgeType :=
  if defined
  then [Type_GreatCircle; Type_GreatCircle; Type_GreatCircle; Type_GreatCircle]
  else [Type_GreatCircle; Type_ConstantLatitude;
        Type_GreatCircle; Type_ConstantLatitude].

(** ** Faces (lines 337-400) *)

Definition south_polar_face (defined : bool) (nLongitudeNodes i : Z) : Face :=
  let face := Face_new 4 in
  let face := SetNode face 0 0 in
  let face := SetNode face 1 (Z.rem (i + 1) nLongitudeNodes + 1) in
  let face := SetNode face 2 (i + 1) in
  let face := SetNode face 3 0 in
  ifndef_ONLY_GREAT_CIRCLES defined face.

Definition south_polar_faces (defined : bool) (nLongitudes nLongitudeNodes : Z)
  : list Face :=
  map (south_polar_face defined nLongitudeNodes) (for_range 0 nLongitudes).

Definition interior_face (defined : bool)
  (nLongitudeNodes iThisLatNodeIx iNextLatNodeIx i : Z) : Face :=
  let face := Face_new 4 in
  let face := SetNode face 0 (iThisLatNodeIx + Z.rem (i + 1) nLongitudeNodes) in
  let face := SetNode face 1 (iNextLatNodeIx + Z.rem (i + 1) nLongitudeNodes) in
  let face := SetNode face 2 (iNextLatNodeIx + i) in
  let face := SetNode face 3 (iThisLatNodeIx + i) in
  ifndef_ONLY_GREAT_CIRCLES defined face.

Definition interior_faces (defined : bool)
  (nLongitudes nLongitudeNodes iInteriorLatBegin iInteriorLatEnd
   iSouthPoleOffset : Z) : list Face :=
  flat_map (fun j =>
    let jx := j - iInteriorLatBegin in
    let iThisLatNodeIx := jx * nLongitudeNodes + iSouthPoleOffset in
    let iNextLatNodeIx := (jx + 1) * nLongitudeNodes + iSouthPoleOffset in
    map (interior_face defined nLongitudeNodes iThisLatNodeIx iNextLatNodeIx)
        (for_range 0 nLongitudes))
    (for_range iInteriorLatBegin iInteriorLatEnd).

Definition north_polar_face (defined : bool)
  (nLongitudeNodes iThisLatNodeIx iNorthPolarNodeIx i : Z) : Face :=
  let face := Face_new 4 in
  let face := SetNode face 0 iNorthPolarNodeIx in
  let face := SetNode face 1 (iThisLatNodeIx + i) in
  let face := SetNode face 2 (iThisLatNodeIx + Z.rem (i + 1) nLongitudeNodes) in
  let face := SetNode face 3 iNorthPolarNodeIx in
  ifndef_ONLY_GREAT_CIRCLES defined face.

Definition north_polar_faces (defined : bool)
  (nLongitudes nLatitudes nLongitudeNodes iInteriorLatBegin iSouthPoleOffset
   nodes_size : Z) : list Face :=
  let jx := nLatitudes - iInteriorLatBegin - 1 in
  let iThisLatNodeIx := jx * nLongitudeNodes + iSouthPoleOffset in
  let iNorthPolarNodeIx := nodes_size - 1 in
  map (north_polar_face defined nLongitudeNodes iThisLatNodeIx iNorthPolarNodeIx)
      (for_range 0 nLongitudes).

(** The reordering under [--flip] (lines 403-411): [faceTemp] is read at
    [j * nLongitudes + i]. *)
Definition flip_faces (nLongitudes nLatitudes : Z) (faceTemp : list Face)
  : Run (list Face) :=
  for_each (for_range 0 nLongitudes) (fun i =>
    for_each (for_range 0 nLatitudes) (fun j =>
      face <- at_ faceTemp (j * nLongitudes + i) ;;
      Done [face])).

Section Doubles.

Context {D : Type} {ops : DoubleOps D}.

(** ** The edge arrays built from the parameters (lines 236-266) *)

(** [d *= M_PI / 180.0]. *)
Definition deg2rad (d : D) : D := d_mul d (d_div M_PI (d_lit 180 0)).

(** [dEdge.Initialize(n+1)] followed by the loop that assigns every entry
    [0 .. n] once.  [n + 1] and the loop counter are [int]s: the
    definition is what the code does for [n < 2147483647]. *)
Definition edge_array (n : Z) (dBegin dDelta : D) : list D :=
  map (fun i =>
         let dFrac := d_div (d_of_int i) (d_of_int n) in
         d_add (d_mul dDelta dFrac) dBegin)
      (for_range 0 (n + 1)).

Definition edges_from_parameters
  (nLongitudes nLatitudes : Z) (dLonBegin dLonEnd dLatBegin dLatEnd : D)
  : list D * list D :=
  let dLonBegin := deg2rad dLonBegin in
  let dLonEnd := deg2rad dLonEnd in
  let dLatBegin := deg2rad dLatBegin in
  let dLatEnd := deg2rad dLatEnd in
  let dDeltaLon := d_sub dLonEnd dLonBegin in
  let dDeltaLat := d_sub dLatEnd dLatBegin in
  (edge_array nLongitudes dLonBegin dDeltaLon,
   edge_array nLatitudes dLatBegin dDeltaLat).

(** ** Set bounds (lines 284-288) *)

Record Bounds : Type := mkBounds {
  b_dLatBegin : D; b_dLatEnd : D; b_dLonBegin : D; b_dLonEnd : D
}.

Definition set_bounds (dLonEdge dLatEdge : list D) : Run Bounds :=
  dLatBegin <- at_ dLatEdge 0 ;;
  dLatEnd <- at_ dLatEdge (GetRows dLatEdge - 1) ;;
  dLonBegin <- at_ dLonEdge 0 ;;
  dLonEnd <- at_ dLatEdge (GetRows dLonEdge - 1) ;;
  Done (mkBounds dLatBegin dLatEnd dLonBegin dLonEnd).

(** ** The flags computed from the bounds (lines 296-302) *)

Definition wrap_longitudes (b : Bounds) : bool :=
  d_lt (d_fmod (d_sub (b_dLonEnd b) (b_dLonBegin b))
               (d_mul (d_lit 2 0) M_PI))
       (d_lit 1 (-12)).

Definition include_south_pole (b : Bounds) : bool :=
  d_lt (d_fabs (d_add (b_dLatBegin b) (d_mul (d_lit 5 (-1)) M_PI)))
       (d_lit 1 (-12)).

Definition include_north_pole (b : Bounds) : bool :=
  d_lt (d_fabs (d_sub (b_dLatEnd b) (d_mul (d_lit 5 (-1)) M_PI)))
       (d_lit 1 (-12)).

(** ** Nodes (lines 316-335) *)

Definition interior_node (dLambda dPhi : D) : Node D :=
  let dX := d_mul (d_cos dPhi) (d_cos dLambda) in
  let dY := d_mul (d_cos dPhi) (d_sin dLambda) in
  let dZ := d_sin dPhi in
  mkNode dX dY dZ.

Definition south_pole_node : Node D :=
  mkNode (d_lit 0 0) (d_lit 0 0) (d_lit (-1) 0).

Definition north_pole_node : Node D :=
  mkNode (d_lit 0 0) (d_lit 0 0) (d_lit 1 0).

Definition interior_nodes (dLonEdge dLatEdge : list D)
  (iInteriorLatBegin iInteriorLatEnd nLongitudeNodes : Z)
  : Run (list (Node D)) :=
  for_each (for_range iInteriorLatBegin (iInteriorLatEnd + 1)) (fun j =>
    for_each (for_range 0 nLongitudeNodes) (fun i =>
      dLambda <- at_ dLonEdge i ;;
      dPhi <- at_ dLatEdge j ;;
      Done [interior_node dLambda dPhi])).

Definition generate_nodes (dLonEdge dLatEdge : list D)
  (iInteriorLatBegin iInteriorLatEnd nLongitudeNodes : Z)
  (fIncludeSouthPole fIncludeNorthPole : bool) : Run (list (Node D)) :=
  interior <- interior_nodes dLonEdge dLatEdge
                iInteriorLatBegin iInteriorLatEnd nLongitudeNodes ;;
  Done ((if fIncludeSouthPole then [south_pole_node] else [])
        ++ interior
        ++ (if fIncludeNorthPole then [north_pole_node] else [])).

(** ** The mesh (lines 290-411) *)


Definition generate_faces (defined : bool) (nLongitudes nLatitudes : Z)
  (fWrapLongitudes fIncludeSouthPole fIncludeNorthPole : bool)
  (nodes_size : Z) : list Face :=
  let iSouthPoleOffset := if fIncludeSouthPole then 1 else 0 in
  let iInteriorLatBegin := if fIncludeSouthPole then 1 else 0 in
  let iInteriorLatEnd :=
    if fIncludeNorthPole then nLatitudes - 1 else nLatitudes in
  let nLongitudeNodes :=
    if fWrapLongitudes then nLongitudes else nLongitudes + 1 in
  (if fIncludeSouthPole
   then south_polar_faces defined nLongitudes nLongitudeNodes else [])
  ++ interior_faces defined nLongitudes nLongitudeNodes
       iInteriorLatBegin iInteriorLatEnd iSouthPoleOffset
  ++ (if fIncludeNorthPole
      then north_polar_faces defined nLongitudes nLatitudes nLongitudeNodes
             iInteriorLatBegin iSouthPoleOffset nodes_size
      else []).

Definition generate_mesh (defined : bool) (nLongitudes nLatitudes : Z)
  (dLonEdge dLatEdge : list D)
  (fWrapLongitudes fIncludeSouthPole fIncludeNorthPole fFlipLatLon : bool)
  : Run (Mesh D) :=
  let iInteriorLatBegin := if fIncludeSouthPole then 1 else 0 in
  let iInteriorLatEnd :=
    if fIncludeNorthPole then nLatitudes - 1 else nLatitudes in
  let nLongitudeNodes :=
    if fWrapLongitudes then nLongitudes else nLongitudes + 1 in
  nodes <- generate_nodes dLonEdge dLatEdge
             iInteriorLatBegin iInteriorLatEnd nLongitudeNodes
             fIncludeSouthPole fIncludeNorthPole ;;
  let faces := generate_faces defined nLongitudes nLatitudes
                 fWrapLongitudes fIncludeSouthPole fIncludeNorthPole
                 (GetRows nodes) in
  if fFlipLatLon then
    faces' <- flip_faces nLongitudes nLatitudes faces ;;
    Done (mkMesh nodes faces')
  else Done (mkMesh nodes faces).

(** ** [main] *)

Record Args : Type := mkArgs {
  nLongitudes : Z;
  nLatitudes : Z;
  dLonBegin : D;
  dLonEnd : D;
  dLatBegin : D;
  dLatEnd : D;
  fFlipLatLon : bool;
  strInputFile : string;
  fForceGlobal : bool;
  fVerbose : bool;
  strOutputFile : string
}.

(** The values [CommandLineInt], [CommandLineDouble], [CommandLineBool] and
    [CommandLineString] give when an option is absent (lines 73-83). *)
Definition default_args : Args :=
  mkArgs 128 64 (d_lit 0 0) (d_lit 360 0) (d_lit (-90) 0) (d_lit 90 0)
         false EmptyString false false "outRLLMesh.g".

(** What the branch for [--in_file] (lines 104-233) hands on: the two
    counts read from the file and the two edge arrays. *)
Record EdgeArrays : Type := mkEdgeArrays {
  ea_nLongitudes : Z; ea_nLatitudes : Z;
  ea_dLonEdge : list D; ea_dLatEdge : list D
}.

Section Main.

(** The collaborators outside this file: the NetCDF reader behind the
    [--in_file] branch, and [mesh.Write] with the attributes added to the
    output file (lines 418-435). *)
Variable read_input_file : Args -> Run EdgeArrays.
Variable write_mesh : Args -> Mesh D -> Run unit.

Definition main_body (a : Args) : Run unit :=
  if d_le (dLatEnd a) (dLatBegin a) then
    _EXCEPTIONT "--lat_begin and --lat_end must specify a positive interval"
  else if d_le (dLonEnd a) (dLonBegin a) then
    _EXCEPTIONT "--lon_begin and --lon_end must specify a positive interval"
  else
    ea <- (if negb (String.eqb (strInputFile a) EmptyString)
           then read_input_file a
           else
             let '(dLonEdge, dLatEdge) :=
               edges_from_parameters (nLongitudes a) (nLatitudes a)
                 (dLonBegin a) (dLonEnd a) (dLatBegin a) (dLatEnd a) in
             Done (mkEdgeArrays (nLongitudes a) (nLatitudes a)
                     dLonEdge dLatEdge)) ;;
    if GetRows (ea_dLatEdge ea) <? 2 then
      _EXCEPTIONT "Invalid array of latitudes"
    else if GetRows (ea_dLonEdge ea) <? 2 then
      _EXCEPTIONT "Invalid array of longitudes"
    else
      b <- set_bounds (ea_dLonEdge ea) (ea_dLatEdge ea) ;;
      mesh <- generate_mesh ONLY_GREAT_CIRCLES
                (ea_nLongitudes ea) (ea_nLatitudes ea)
                (ea_dLonEdge ea) (ea_dLatEdge ea)
                (wrap_longitudes b) (include_south_pole b)
                (include_north_pole b) (fFlipLatLon a) ;;
      write_mesh a mesh.

Definition main (a : Args) : option Z := main_try (main_body a).

End Main.

End Doubles.

End GenerateRLLMesh.

(* ================================================================== *)
(** * GenerateTestData.cpp *)

Module GenerateTestData.

(** The four subclasses of [TestFunction] (lines 57-174). *)
Inductive TestFunction : Type :=
| TestFunctionY2b2
| TestFunctionY16b32
| TestFunction1
| TestFunctionVortex.

(** The test selected by [--test] (lines 250-261). *)
Definition select_test (iTestData : Z) : Run TestFunction :=
  if iTestData =? 1 then Done TestFunctionY2b2
  else if iTestData =? 2 then Done TestFunctionY16b32
  else if iTestData =? 3 then Done TestFunctionVortex
  else if iTestData =? 4 then Done TestFunction1
  else _EXCEPTIONT "Test index out of range; expected [1,2,3]".

Section Doubles.

Context {D : Type} {ops : DoubleOps D}.

(** A division as the test functions perform it: [None] when the divisor
    compares equal to zero. *)
Definition checked_div (a b : D) : option D :=
  if d_eqb b (d_lit 0 0) then None else Some (d_div a b).

Definition obind {A B : Type} (m : option A) (k : A -> option B) : option B :=
  match m with
  | Some a => k a
  | None => None
  end.

(** [TestFunctionY2b2::operator()] (line 70). *)
Definition Y2b2 (dLon dLat : D) : option D :=
  Some (d_add (d_lit 2 0)
          (d_mul (d_mul (d_cos dLat) (d_cos dLat))
                 (d_cos (d_mul (d_lit 2 0) dLon)))).

(** [TestFunctionY16b32::operator()] (line 89). *)
Definition Y16b32 (dLon dLat : D) : option D :=
  Some (d_add (d_lit 2 0)
          (d_mul (d_pow (d_sin (d_mul (d_lit 2 0) dLat)) (d_lit 16 0))
                 (d_cos (d_mul (d_lit 16 0) dLon)))).

(** [TestFunction1::operator()] (line 107). *)
Definition Constant1 (dLon dLat : D) : option D := Some (d_of_int 1).

(** [TestFunctionVortex::RotatedSphereCoord] (lines 123-144); the two
    reference arguments are returned as a pair. *)
Definition RotatedSphereCoord (dLonC dLatC dLonT dLatT : D) : D * D :=
  let dSinC := d_sin dLatC in
  let dCosC := d_cos dLatC in
  let dCosT := d_cos dLatT in
  let dSinT := d_sin dLatT in
  let dTrm := d_mul dCosT (d_cos (d_sub dLonT dLonC)) in
  let dX := d_sub (d_mul dSinC dTrm) (d_mul dCosC dSinT) in
  let dY := d_mul dCosT (d_sin (d_sub dLonT dLonC)) in
  let dZ := d_add (d_mul dSinC dSinT) (d_mul dCosC dTrm) in
  let dLonT := d_atan2 dY dX in
  let dLonT :=
    if d_lt dLonT (d_lit 0 0)
    then d_add dLonT (d_mul (d_lit 2 0) M_PI) else dLonT in
  let dLatT := d_asin dZ in
  (dLonT, dLatT).

(** The angular velocity (lines 165-170). *)
Definition vortex_omega (dVt dRho : D) : option D :=
  if d_eqb dRho (d_lit 0 0) then Some (d_lit 0 0)
  else checked_div dVt dRho.

(** The tangential velocity (lines 162-163):
    [3.0 * sqrt(3.0) / 2.0 / cosh(dRho) / cosh(dRho) * tanh(dRho)]. *)
Definition vortex_Vt (dRho : D) : option D :=
  obind (checked_div (d_mul (d_lit 3 0) (d_sqrt (d_lit 3 0))) (d_lit 2 0))
    (fun q1 =>
  obind (checked_div q1 (d_cosh dRho)) (fun q2 =>
  obind (checked_div q2 (d_cosh dRho)) (fun q3 =>
  Some (d_mul q3 (d_tanh dRho))))).

(** [TestFunctionVortex::operator()] (lines 149-173). *)
Definition Vortex (dLon dLat : D) : option D :=
  let dLon0 := d_lit 0 0 in
  let dLat0 := d_lit 6 (-1) in
  let dR0 := d_lit 3 0 in
  let dD := d_lit 5 0 in
  let dT := d_lit 6 0 in
  let '(dLon, dLat) := RotatedSphereCoord dLon0 dLat0 dLon dLat in
  let dRho := d_mul dR0 (d_cos dLat) in
  obind (vortex_Vt dRho) (fun dVt =>
  obind (vortex_omega dVt dRho) (fun dOmega =>
  obind (checked_div dRho dD) (fun q =>
  Some (d_sub (d_lit 1 0)
          (d_tanh (d_mul q (d_sin (d_sub dLon (d_mul dOmega dT))))))))).

(** The virtual call through [pTest] (lines 413, 525, 582). *)
Definition evaluate (pTest : TestFunction) (dLon dLat : D) : option D :=
  match pTest with
  | TestFunctionY2b2 => Y2b2 dLon dLat
  | TestFunctionY16b32 => Y16b32 dLon dLat
  | TestFunction1 => Constant1 dLon dLat
  | TestFunctionVortex => Vortex dLon dLat
  end.

End Doubles.

(** ** [main] *)

Record Args : Type := mkArgs {
  strMeshFile : string;
  iTestData : Z;
  fGLL : bool;
  fGLLIntegrate : bool;
  nP : Z;
  fHOMMEFormat : bool;
  strVariableName : string;
  strTestData : string;
  fFlipRectilinear : bool;
  fContainsConcaveFaces : bool
}.

(** The values of absent options (lines 215-224). *)
Definition default_args : Args :=
  mkArgs EmptyString 1 false false 4 false "Psi" "testdata.nc" false false.

Section Main.

(** The collaborators outside this file: the constructor of
    [TriangularQuadratureRule] (line 242), and everything [main] does with
    the selected test from line 263 on (mesh loading, sampling, NetCDF
    output), which goes through GridElements, FiniteElementTools and
    NetCDF. *)
Variable triquadrule : Z -> Run unit.
Variable sample_and_write : Args -> TestFunction -> Run unit.

Definition TriQuadratureOrder : Z := 10.

Definition main_body (a : Args) : Run unit :=
  if fGLLIntegrate a && fGLL a then
    _EXCEPTIONT "--gll and --gllint are exclusive arguments"
  else
    _ <- triquadrule TriQuadratureOrder ;;
    pTest <- select_test (iTestData a) ;;
    sample_and_write a pTest.

Definition main (a : Args) : option Z := main_try (main_body a).

End Main.

End GenerateTestData.

(* ================================================================== *)
(** * GenerateOverlapMeshExe_v1.cpp *)

Module GenerateOverlapMeshExe.

Record Args : Type := mkArgs {
  strMeshA : string;
  strMeshB : string;
  strOverlapMesh : string;
  strMethod : string;
  fNoValidate : bool
}.

(** The command line (lines 44-52): each option as given, if given. *)
Record CommandLine : Type := mkCommandLine {
  opt_a : option string;
  opt_b : option string;
  opt_out : option string;
  opt_method : option string;
  opt_novalidate : bool
}.

Definition ParseCommandLine (c : CommandLine) : Args :=
  mkArgs (CommandLineOption (opt_a c) EmptyString)
         (CommandLineOption (opt_b c) EmptyString)
         (CommandLineOption (opt_out c) "overlap.g"%string)
         (CommandLineOption (opt_method c) "fuzzy"%string)
         (opt_novalidate c).


Section Main.

(** [GenerateOverlapMesh_v1] is declared in TempestRemapAPI.h and its body
    is not under [src/]: what [main] can see of a call is that it returns
    an [int] or throws. *)
Variable GenerateOverlapMesh_v1 : Args -> Run Z.

(** Lines 56-63, which no [try] block encloses:
    [int err = GenerateOverlapMesh_v1(...); if (err) exit(err); else return 0;].
    [Done code] is the code handed to [exit] or returned; an object that
    the call throws is caught nowhere and leaves [main] ([Raise]). *)
Definition main (c : CommandLine) : Run Z :=
  let a := ParseCommandLine c in
  err <- GenerateOverlapMesh_v1 a ;;
  if negb (err =? 0) then Done err else Done 0.

End Main.

End GenerateOverlapMeshExe.

(* ================================================================== *)
(** * Doubles as real numbers *)

Module RealDoubles.

Local Open Scope R_scope.

Definition Rltb (a b : R) : bool := if Rlt_dec a b then true else false.
Definition Rleb (a b : R) : bool := if Rle_dec a b then true else false.
Definition Reqb (a b : R) : bool := if Req_dec_T a b then true else false.

(** Truncation towards zero. *)
Definition Rtrunc (r : R) : Z :=
  if Rlt_dec r 0 then (- Int_part (- r))%Z else Int_part r.

(** C's [fmod]: the remainder has the sign of [a]. *)
Definition Rfmod (a b : R) : R := a - IZR (Rtrunc (a / b)) * b.

(** C's [atan2]. *)
Definition Ratan2 (b a : R) : R :=
  if Rlt_dec 0 a then atan (b / a)
  else if Rlt_dec a 0 then
    (if Rle_dec 0 b then atan (b / a) + PI else atan (b / a) - PI)
  else if Rlt_dec 0 b then PI / 2
  else if Rlt_dec b 0 then - (PI / 2)
  else 0.

(** C's [pow]: the integer power when the exponent is an integer. *)
Definition Rpow (a e : R) : R :=
  if Req_dec_T e (IZR (Int_part e)) then powerRZ a (Int_part e)
  else Rpower a e.

(** The operations in exact arithmetic: what the program computes when no
    operation rounds. *)
#[export] Instance R_ops : DoubleOps R := {
  d_lit m e := IZR m * powerRZ 10 e;
  d_of_int := IZR;
  M_PI := PI;
  d_add := Rplus;
  d_sub := Rminus;
  d_mul := Rmult;
  d_div := Rdiv;
  d_cos := cos;
  d_sin := sin;
  d_asin := asin;
  d_atan2 := Ratan2;
  d_cosh := cosh;
  d_tanh := tanh;
  d_sqrt := sqrt;
  d_pow := Rpow;
  d_fabs := Rabs;
  d_fmod := Rfmod;
  d_lt := Rltb;
  d_le := Rleb;
  d_eqb := Reqb
}.

(** The rounding-error model of the node computation: operations on
    doubles that take real values and stay within [u] of the exact
    result.  The literals [0.0], [1.0] and [-1.0] are exact; [cos] and
    [sin] are within [u] of the real functions; a product of two factors
    of magnitude at most [1 + u] is within [u] of the real product. *)
Record accurate (u : R) (ops : DoubleOps R) : Prop := mkAccurate {
  acc_lit_0 : d_lit 0 0 = 0;
  acc_lit_1 : d_lit 1 0 = 1;
  acc_lit_m1 : d_lit (-1) 0 = -1;
  acc_cos : forall a, Rabs (d_cos a - cos a) <= u;
  acc_sin : forall a, Rabs (d_sin a - sin a) <= u;
  acc_mul : forall a b, Rabs a <= 1 + u -> Rabs b <= 1 + u ->
                        Rabs (d_mul a b - a * b) <= u
}.

(** [x^2 + y^2 + z^2]. *)
Definition norm2 (n : Node R) : R := x n * x n + y n * y n + z n * z n.

(** The tolerance on the norm of a node. *)
Definition eps_node : R := 1e-10.

Definition unit_within (eps : R) (n : Node R) : Prop :=
  Rabs (norm2 n - 1) <= eps.

End RealDoubles.

(* ================================================================== *)
(** * Doubles as rounded real numbers *)

Module RoundedDoubles.

Import RealDoubles.

Local Open Scope R_scope.

(** Doubles taken with their real values, where [+], [-], [*] and [/]
    return the rounding [rnd] of the exact result.  [rnd] stands for a
    rounding mode of IEEE arithmetic: it is monotone, it leaves a double
    (a value of [rnd]) as it is, and the values of an [int] are doubles;
    [M_PI] is the rounding of pi, and comparisons are exact.  The library
    functions are not taken to round correctly: [cos] and [sin] stay
    within [-1, 1], [pow] stays within [0, 1] when the exact power does,
    and [atan2] stays within [-M_PI, M_PI].  Overflow to an infinity and
    NaN are outside this model. *)
Record rounded (rnd : R -> R) (ops : DoubleOps R) : Prop := mkRounded {
  rnd_monotone : forall a b, a <= b -> rnd a <= rnd b;
  rnd_idempotent : forall a, rnd (rnd a) = rnd a;
  rnd_int : forall n : Z,
    (-2147483648 <= n <= 2147483647)%Z -> rnd (IZR n) = IZR n;
  rd_lit : forall n : Z,
    (-2147483648 <= n <= 2147483647)%Z -> d_lit n 0 = IZR n;
  rd_of_int : forall n : Z,
    (-2147483648 <= n <= 2147483647)%Z -> d_of_int n = IZR n;
  rd_pi : M_PI = rnd PI;
  rd_add : forall a b, d_add a b = rnd (a + b);
  rd_sub : forall a b, d_sub a b = rnd (a - b);
  rd_mul : forall a b, d_mul a b = rnd (a * b);
  rd_div : forall a b, b <> 0 -> d_div a b = rnd (a / b);
  rd_lt : forall a b, d_lt a b = Rltb a b;
  rd_cos : forall a, -1 <= d_cos a <= 1;
  rd_sin : forall a, -1 <= d_sin a <= 1;
  rd_pow : forall a e, 0 <= Rpow a e <= 1 -> 0 <= d_pow a e <= 1;
  rd_atan2 : forall b a, - M_PI <= d_atan2 b a <= M_PI
}.

End RoundedDoubles.

(* ================================================================== *)
(** * Arrays written in place *)

From Stdlib Require Import Ascii.

Module Arrays.

(** [v[i] = a] as a write: unchecked in C++, undefined outside
    [0, size). *)
Definition set_ {A : Type} (v : list A) (i : Z) (a : A) : Run (list A) :=
  if (i <? 0) || (GetRows v <=? i) then Undefined
  else Done (update v (Z.to_nat i) (fun _ => a)).

(** A loop whose body changes the variables [s] declared outside it. *)
Fixpoint for_state {S : Type} (l : list Z) (body : Z -> S -> Run S) (s : S)
  : Run S :=
  match l with
  | [] => Done s
  | i :: l' => bind (body i s) (for_state l' body)
  end.

(** [v.Initialize(n)] of DataVector.h (not under [src/]): [n] rows.  Every
    row is assigned before it is read in the code modelled here, so that
    the initial content, taken as [0.0], plays no part. *)
Definition Initialize {D : Type} {ops : DoubleOps D} (n : Z) : list D :=
  repeat (d_lit 0 0) (Z.to_nat n).

End Arrays.

Import Arrays.

(* ================================================================== *)
(** * GenerateRLLMesh.cpp: the branch for [--in_file] (lines 104-233) *)

Module GenerateRLLMeshInput.

Import GenerateRLLMesh.

(** The character that delimits a string, for the messages that quote a
    name. *)
Definition quote : string := String "034"%char EmptyString.

Definition msg_unable_to_load (strInputFile : string) : string :=
  ("Unable to load input file " ++ quote ++ strInputFile ++ quote)%string.

Definition msg_missing (kind name : string) : string :=
  ("Input file missing " ++ kind ++ " " ++ quote ++ name ++ quote)%string.

Section Doubles.

Context {D : Type} {ops : DoubleOps D}.

(** What the NetCDF library answers about the input file: whether it was
    opened, the sizes of the dimensions [lon] and [lat] and the values of
    the variables [lon] and [lat], each absent when [get_dim] or [get_var]
    returns [NULL].  The values of a variable are what [get] stores in
    the node array. *)
Record NcInput : Type := mkNcInput {
  is_valid : bool;
  dimLon : option Z;
  dimLat : option Z;
  varLon : option (list D);
  varLat : option (list D)
}.

(** A use of a pointer: undefined when it is [NULL]. *)
Definition deref {A : Type} (p : option A) : Run A :=
  match p with
  | Some a => Done a
  | None => Undefined
  end.

(** Lines 152-162: the loop that rejects a decreasing pair. *)
Definition check_monotone (dNode : list D) (n : Z) (msg : string)
  : Run unit :=
  for_state (for_range 0 (n - 1)) (fun i _ =>
    a <- at_ dNode i ;;
    b <- at_ dNode (i + 1) ;;
    if d_lt b a then _EXCEPTIONT msg else Done tt) tt.

(** Lines 184-186 and 207-209: the interior edges are the midpoints of
    consecutive nodes. *)
Definition fill_midpoints (dNode : list D) (n : Z) (dEdge : list D)
  : Run (list D) :=
  for_state (for_range 1 n) (fun i dEdge =>
    a <- at_ dNode (i - 1) ;;
    b <- at_ dNode i ;;
    set_ dEdge i (d_mul (d_lit 5 (-1)) (d_add a b))) dEdge.

(** Lines 215-220 and 225-230: every edge is converted to radians. *)
Definition to_radians (n : Z) (dEdge : list D) : Run (list D) :=
  for_state (for_range 0 (n + 1)) (fun i dEdge =>
    e <- at_ dEdge i ;;
    set_ dEdge i (deg2rad e)) dEdge.

(** Lines 164-186: the longitude edges, in degrees, and the flag
    [fForceGlobal] as the branch leaves it. *)
Definition longitude_edges (dLonNode : list D) (nLongitudes : Z)
  (fForceGlobal : bool) : Run (list D * bool) :=
  n1 <- at_ dLonNode 1 ;;
  n0 <- at_ dLonNode 0 ;;
  let dFirstDeltaLon := d_sub n1 n0 in
  nl <- at_ dLonNode (nLongitudes - 1) ;;
  nl2 <- at_ dLonNode (nLongitudes - 2) ;;
  let dSecondLastDeltaLon := d_sub nl nl2 in
  let dLastDeltaLon := d_sub n0 (d_sub nl (d_lit 360 0)) in
  let fForceGlobal :=
    if d_lt (d_fabs (d_sub dFirstDeltaLon dLastDeltaLon)) (d_lit 1 (-12))
    then true else fForceGlobal in
  let dLonEdge := Initialize (nLongitudes + 1) in
  dLonEdge <-
    (if fForceGlobal then
       dLonEdge <- set_ dLonEdge 0
         (d_mul (d_lit 5 (-1)) (d_sub (d_add n0 nl) (d_lit 360 0))) ;;
       e0 <- at_ dLonEdge 0 ;;
       set_ dLonEdge nLongitudes e0
     else
       dLonEdge <- set_ dLonEdge 0
         (d_sub n0 (d_mul (d_lit 5 (-1)) dFirstDeltaLon)) ;;
       set_ dLonEdge nLongitudes
         (d_add nl (d_mul (d_lit 5 (-1)) dSecondLastDeltaLon))) ;;
  dLonEdge <- fill_midpoints dLonNode nLongitudes dLonEdge ;;
  Done (dLonEdge, fForceGlobal).

(** Lines 188-209: the latitude edges, in degrees; the first and the last
    are kept within [-90, 90]. *)
Definition latitude_edges (dLatNode : list D) (nLatitudes : Z)
  : Run (list D) :=
  let dLatEdge := Initialize (nLatitudes + 1) in
  n0 <- at_ dLatNode 0 ;;
  n1 <- at_ dLatNode 1 ;;
  dLatEdge <- set_ dLatEdge 0
    (d_sub n0 (d_mul (d_lit 5 (-1)) (d_sub n1 n0))) ;;
  e0 <- at_ dLatEdge 0 ;;
  dLatEdge <- (if d_lt e0 (d_lit (-90) 0)
               then set_ dLatEdge 0 (d_lit (-90) 0) else Done dLatEdge) ;;
  nl <- at_ dLatNode (nLatitudes - 1) ;;
  nl2 <- at_ dLatNode (nLatitudes - 2) ;;
  dLatEdge <- set_ dLatEdge nLatitudes
    (d_add nl (d_mul (d_lit 5 (-1)) (d_sub nl nl2))) ;;
  el <- at_ dLatEdge nLatitudes ;;
  dLatEdge <- (if d_lt (d_lit 90 0) el
               then set_ dLatEdge nLatitudes (d_lit 90 0)
               else Done dLatEdge) ;;
  fill_midpoints dLatNode nLatitudes dLatEdge.

(** Lines 104-233. *)
Definition edges_from_file (nc : NcInput) (strInputFile : string)
  (fForceGlobal : bool) : Run EdgeArrays :=
  if negb (is_valid nc) then _EXCEPTIONT (msg_unable_to_load strInputFile)
  else match dimLon nc with
  | None => _EXCEPTIONT (msg_missing "dimension" "lon")
  | Some nLongitudes =>
  match dimLat nc with
  | None => _EXCEPTIONT (msg_missing "dimension" "lat")
  | Some nLatitudes =>
  match varLon nc with
  | None => _EXCEPTIONT (msg_missing "variable" "lon")
  | Some _ =>
  (* line 130 tests [varLon] again, after [varLat] was fetched *)
  match varLon nc with
  | None => _EXCEPTIONT (msg_missing "variable" "lat")
  | Some _ =>
  if nLongitudes <? 2 then
    _EXCEPTIONT "At least two longitudes required in input file"
  else if nLatitudes <? 2 then
    _EXCEPTIONT "At least two latitudes required in input file"
  else
    dLonNode <- deref (varLon nc) ;;
    dLatNode <- deref (varLat nc) ;;
    _ <- check_monotone dLonNode nLongitudes
           "Longitudes must be monotone increasing" ;;
    _ <- check_monotone dLatNode nLatitudes
           "Latitudes must be monotone increasing" ;;
    lon <- longitude_edges dLonNode nLongitudes fForceGlobal ;;
    dLatEdge <- latitude_edges dLatNode nLatitudes ;;
    dLonEdge <- to_radians nLongitudes (fst lon) ;;
    dLatEdge <- to_radians nLatitudes dLatEdge ;;
    Done (mkEdgeArrays nLongitudes nLatitudes dLonEdge dLatEdge)
  end end end end.

(** The reader that [main] calls for [--in_file]. *)
Definition read_input_file (nc : string -> NcInput) (a : @Args D)
  : Run (@EdgeArrays D) :=
  edges_from_file (nc (strInputFile a)) (strInputFile a) (fForceGlobal a).

(** ** What the branch computes, entry by entry *)

(** The pair of nodes [i], [i + 1] decreases. *)
Definition decreasing_at (dNode : list D) (i : Z) : Prop :=
  exists a b, at_ dNode i = Done a /\ at_ dNode (i + 1) = Done b /\
              d_lt b a = true.

(** The edge between two nodes (lines 185 and 208). *)
Definition midpoint (a b : D) : D := d_mul (d_lit 5 (-1)) (d_add a b).

(** The first and the last latitude edge, in degrees (lines 191-205). *)
Definition first_latitude_edge (n0 n1 : D) : D :=
  let e := d_sub n0 (d_mul (d_lit 5 (-1)) (d_sub n1 n0)) in
  if d_lt e (d_lit (-90) 0) then d_lit (-90) 0 else e.

Definition last_latitude_edge (nl2 nl : D) : D :=
  let e := d_add nl (d_mul (d_lit 5 (-1)) (d_sub nl nl2)) in
  if d_lt (d_lit 90 0) e then d_lit 90 0 else e.

End Doubles.



End GenerateRLLMeshInput.

(* ================================================================== *)
(** * GenerateTestData.cpp: output dimensions and element sampling *)

Module GenerateTestDataLayout.

Import GenerateTestData.

(** What the NetCDF library answers about the mesh file: the values of
    the variable [grid_dims] (as many as the size of its first dimension)
    and the four attributes that go with [rectilinear], each absent when
    [get_var] or [get_att] returns [NULL]. *)
Record NcMesh : Type := mkNcMesh {
  varGridDims : option (list Z);
  attRectilinear : bool;
  att_dim0_size : option Z;
  att_dim1_size : option Z;
  att_dim0_name : option string;
  att_dim1_name : option string
}.

(** A use of a pointer: undefined when it is [NULL]. *)
Definition deref {A : Type} (p : option A) : Run A :=
  match p with
  | Some a => Done a
  | None => Undefined
  end.

(** The variables [vecOutputDimSizes], [vecOutputDimNames] and
    [fRectilinear]. *)
Record OutputDims : Type := mkOutputDims {
  vecOutputDimSizes : list Z;
  vecOutputDimNames : list string;
  fRectilinear : bool
}.

Definition push_dim (d : OutputDims) (size : Z) (name : string)
  : OutputDims :=
  mkOutputDims (vecOutputDimSizes d ++ [size]) (vecOutputDimNames d ++ [name])
               (fRectilinear d).

(** Lines 273-294: the SCRIP variable [grid_dims]. *)
Definition dims_of_grid_dims (nc : NcMesh) : Run OutputDims :=
  match varGridDims nc with
  | None => Done (mkOutputDims [] [] false)
  | Some dims =>
      let rank := GetRows dims in
      if rank =? 1 then Done (mkOutputDims dims ["num_elem"%string] false)
      else if rank =? 2 then
        Done (mkOutputDims dims ["lon"%string; "lat"%string] true)
      else _EXCEPTIONT "Source grid grid_rank must be < 3"
  end.

(** Lines 296-313: the attribute [rectilinear] of an Exodus file. *)
Definition dims_of_attributes (nc : NcMesh) (d : OutputDims)
  : Run OutputDims :=
  if attRectilinear nc then
    nDim0Size <- deref (att_dim0_size nc) ;;
    nDim1Size <- deref (att_dim1_size nc) ;;
    strDim0Name <- deref (att_dim0_name nc) ;;
    strDim1Name <- deref (att_dim1_name nc) ;;
    Done (mkOutputDims (vecOutputDimSizes d ++ [nDim0Size; nDim1Size])
                       (vecOutputDimNames d ++ [strDim0Name; strDim1Name])
                       true)
  else Done d.

(** Lines 270-339, for a mesh of [nFaces] faces. *)
Definition output_dims (nc : NcMesh) (nFaces : Z) (a : Args)
  : Run OutputDims :=
  d <- dims_of_grid_dims nc ;;
  d <- dims_of_attributes nc d ;;
  let d := if GetRows (vecOutputDimSizes d) =? 0
           then push_dim d nFaces "ncol" else d in
  if fFlipRectilinear a && negb (fRectilinear d) then
    _EXCEPTIONT "--fliprectlinear cannot be used with non-rectilinear grids"
  else if fGLL a && fRectilinear d then
    _EXCEPTIONT "--gll cannot be used with rectilinear grids"
  else Done (if fHOMMEFormat a then push_dim d 1 "lev" else d).

(** Narrowing of a [long] to an [int] (lines 421, 422 and 424), two's
    complement. *)
Definition int_of_long (v : Z) : Z :=
  (v + 2147483648) mod 4294967296 - 2147483648.

(** A [long] result that overflows is undefined. *)
Definition long_ok (v : Z) : bool :=
  (-9223372036854775808 <=? v) && (v <=? 9223372036854775807).

(** Lines 419-425: the index of face [i] in the output under
    [--fliprectilinear].  [vecOutputDimSizes] holds [long]s: [%], [/],
    [*] and [+] are computed in [long] and the results stored in [int]s;
    [%] and [/] by zero are undefined. *)
Definition flip_index (vecOutputDimSizes : list Z) (i : Z) : Run Z :=
  d0 <- at_ vecOutputDimSizes 0 ;;
  if d0 =? 0 then Undefined
  else
    let i0 := int_of_long (Z.rem i d0) in
    let i1 := int_of_long (Z.quot i d0) in
    d1 <- at_ vecOutputDimSizes 1 ;;
    if long_ok (i0 * d1) && long_ok (i0 * d1 + i1)
    then Done (int_of_long (i0 * d1 + i1))
    else Undefined.


(** [face.edges.size()] is a [size_t]: [face.edges.size()-2] is computed
    modulo 2^64. *)
Definition size_t_modulus : Z := 2 ^ 64.

Definition sub_triangle_count (face : Face) : Z :=
  (GetRows (edges face) - 2) mod size_t_modulus.

(** [face[k]] as a read of [face.edges]. *)
Definition face_at (face : Face) (k : Z) : Run Z :=
  e <- at_ (edges face) k ;;
  Done (node0 e).

Section Doubles.

Context {D : Type} {ops : DoubleOps D}.

(** Lines 374-376: the corners of sub-triangle [j] of a face. *)
Definition sub_triangle (nodes : list (Node D)) (face : Face) (j : Z)
  : Run (Node D * Node D * Node D) :=
  i0 <- face_at face 0 ;;
  node0 <- at_ nodes i0 ;;
  i1 <- face_at face (j + 1) ;;
  node1 <- at_ nodes i1 ;;
  i2 <- face_at face (j + 2) ;;
  node2 <- at_ nodes i2 ;;
  Done (node0, node1, node2).

(** Line 372: the loop over the sub-triangles of a face. *)
Definition sub_triangles (nodes : list (Node D)) (face : Face)
  : Run (list (Node D * Node D * Node D)) :=
  for_each (for_range 0 (sub_triangle_count face)) (fun j =>
    t <- sub_triangle nodes face j ;;
    Done [t]).

(** Lines 407-411, 519-523 and 576-580: the longitude, brought to
    [0, 2 pi), and the latitude of a point. *)
Definition lon_lat (node : Node D) : D * D :=
  let dLon := d_atan2 (y node) (x node) in
  let dLon :=
    if d_lt dLon (d_lit 0 0)
    then d_add dLon (d_mul (d_lit 2 0) M_PI) else dLon in
  let dLat := d_asin (z node) in
  (dLon, dLat).

End Doubles.


End GenerateTestDataLayout.

(* ================================================================== *)
(** * Concrete runs *)

Import GenerateRLLMesh.
Import RealDoubles.



(** The edge arrays of [--lon 2 --lat 3] with the default bounds. *)
Definition edges_2x3 : list R * list R :=
  edges_from_parameters 2 3
    (d_lit 0 0) (d_lit 360 0) (d_lit (-90) 0) (d_lit 90 0).

(** The mesh of [--lon 2 --lat 3]: longitudes not wrapping, both poles
    included, one row of interior faces. *)
Definition mesh_2x3 : Run (Mesh R) :=
  generate_mesh ONLY_GREAT_CIRCLES 2 3 (fst edges_2x3) (snd edges_2x3)
    false true true false.

(* ================================================================== *)
(** * Loops and array reads *)

Lemma in_for_range (lo hi i : Z) :
  In i (for_range lo hi) <-> lo <= i < hi.
Proof.
  unfold for_range. rewrite in_map_iff. split.
  - intros (k & <- & Hk). apply in_seq in Hk. lia.
  - intros H. exists (Z.to_nat (i - lo)). split; [lia|].
    apply in_seq. lia.
Qed.

Lemma length_for_range (lo hi : Z) :
  List.length (for_range lo hi) = Z.to_nat (hi - lo).
Proof. unfold for_range. now rewrite length_map, length_seq. Qed.

Lemma at_Done_In {A : Type} (v : list A) (i : Z) (a : A) :
  at_ v i = Done a -> In a v.
Proof.
  unfold at_. destruct (i <? 0); [discriminate|].
  destruct (nth_error v (Z.to_nat i)) eqn:E; [|discriminate].
  intros [= <-]. eapply nth_error_In; eassumption.
Qed.

Lemma at_in_range {A : Type} (v : list A) (i : Z) :
  0 <= i < GetRows v -> exists a, at_ v i = Done a.
Proof.
  unfold at_, GetRows. intros H.
  destruct (i <? 0) eqn:E; [lia|].
  destruct (nth_error v (Z.to_nat i)) eqn:E'; [eauto|].
  apply nth_error_None in E'. lia.
Qed.

Lemma at_out_of_range {A : Type} (v : list A) (i : Z) :
  at_ v i = Undefined <-> ~ (0 <= i < GetRows v).
Proof.
  unfold at_, GetRows. split.
  - destruct (i <? 0) eqn:E; [lia|].
    destruct (nth_error v (Z.to_nat i)) eqn:E'; [discriminate|].
    apply nth_error_None in E'. lia.
  - intros H. destruct (i <? 0) eqn:E; [reflexivity|].
    destruct (nth_error v (Z.to_nat i)) eqn:E'; [|reflexivity].
    assert (nth_error v (Z.to_nat i) <> None) as N by congruence.
    apply nth_error_Some in N. lia.
Qed.

Lemma for_each_In {A : Type} (l : list Z) (body : Z -> Run (list A))
  (r : list A) (a : A) :
  for_each l body = Done r -> In a r ->
  exists i ri, In i l /\ body i = Done ri /\ In a ri.
Proof.
  revert r. induction l as [|i l IH]; intros r; simpl.
  - intros [= <-] [].
  - destruct (body i) as [ri| |] eqn:Ei; simpl; try discriminate.
    destruct (for_each l body) as [rs| |]; simpl; try discriminate.
    intros [= <-] Hin. apply in_app_or in Hin as [Hin|Hin].
    + exists i, ri. auto.
    + destruct (IH rs eq_refl Hin) as (j & rj & ? & ? & ?).
      exists j, rj. auto.
Qed.

Lemma for_each_total {A : Type} (l : list Z) (body : Z -> Run (list A)) :
  (forall i, In i l -> exists ri, body i = Done ri) ->
  exists r, for_each l body = Done r.
Proof.
  induction l as [|i l IH]; intros H; simpl.
  - eauto.
  - destruct (H i (or_introl eq_refl)) as (ri & ->).
    destruct IH as (rs & ->); [intros; apply H; now right|].
    simpl. eauto.
Qed.

Lemma for_each_length {A : Type} (l : list Z) (body : Z -> Run (list A))
  (k : nat) (r : list A) :
  for_each l body = Done r ->
  (forall i ri, In i l -> body i = Done ri -> List.length ri = k) ->
  List.length r = (k * List.length l)%nat.
Proof.
  revert r. induction l as [|i l IH]; intros r; simpl.
  - intros [= <-] _. simpl. lia.
  - destruct (body i) as [ri| |] eqn:Ei; simpl; try discriminate.
    destruct (for_each l body) as [rs| |] eqn:Es; simpl; try discriminate.
    intros [= <-] H. rewrite length_app.
    rewrite (H i ri (or_introl eq_refl) Ei).
    rewrite (IH rs eq_refl); [lia|].
    intros j rj Hj. apply H. now right.
Qed.

Lemma flip_faces_incl (nLongitudes nLatitudes : Z) (faceTemp faces' : list Face) :
  flip_faces nLongitudes nLatitudes faceTemp = Done faces' ->
  incl faces' faceTemp.
Proof.
  intros H f Hf. unfold flip_faces in H.
  destruct (for_each_In _ _ _ _ H Hf) as (i & ri & _ & Hi & Hfi).
  destruct (for_each_In _ _ _ _ Hi Hfi) as (j & rj & _ & Hj & Hfj).
  destruct (at_ faceTemp (j * nLongitudes + i)) as [g| |] eqn:E;
    simpl in Hj; try discriminate.
  injection Hj as <-. destruct Hfj as [<-|[]].
  eapply at_Done_In; eassumption.
Qed.

(* ================================================================== *)
(** * GenerateRLLMesh: the node loops of the faces *)






Section NodeCount.

Context {D : Type} {ops : DoubleOps D}.

Lemma interior_nodes_length (dLonEdge dLatEdge : list D)
  (iInteriorLatBegin iInteriorLatEnd nLongitudeNodes : Z) (r : list (Node D)) :
  interior_nodes dLonEdge dLatEdge iInteriorLatBegin iInteriorLatEnd
    nLongitudeNodes = Done r ->
  GetRows r
  = Z.max 0 nLongitudeNodes * Z.max 0 (iInteriorLatEnd + 1 - iInteriorLatBegin).
Proof.
  intros H. unfold interior_nodes in H. unfold GetRows.
  rewrite (for_each_length _ _ (Z.to_nat nLongitudeNodes) _ H).
  - rewrite length_for_range. lia.
  - intros j rj _ Hj.
    rewrite (for_each_length _ _ 1%nat _ Hj).
    + rewrite length_for_range. lia.
    + intros i ri _ Hi.
      destruct (at_ dLonEdge i); simpl in Hi; try discriminate.
      destruct (at_ dLatEdge j); simpl in Hi; try discriminate.
      now injection Hi as <-.
Qed.

Lemma generate_nodes_length (dLonEdge dLatEdge : list D)
  (iInteriorLatBegin iInteriorLatEnd nLongitudeNodes : Z)
  (fIncludeSouthPole fIncludeNorthPole : bool) (r : list (Node D)) :
  generate_nodes dLonEdge dLatEdge iInteriorLatBegin iInteriorLatEnd
    nLongitudeNodes fIncludeSouthPole fIncludeNorthPole = Done r ->
  GetRows r
  = (if fIncludeSouthPole then 1 else 0)
    + Z.max 0 nLongitudeNodes * Z.max 0 (iInteriorLatEnd + 1 - iInteriorLatBegin)
    + (if fIncludeNorthPole then 1 else 0).
Proof.
  unfold generate_nodes. intros H.
  destruct (interior_nodes _ _ _ _ _) as [ns| |] eqn:E; simpl in H;
    try discriminate.
  injection H as <-. apply interior_nodes_length in E.
  unfold GetRows in *. rewrite !length_app.
  destruct fIncludeSouthPole, fIncludeNorthPole; simpl List.length; lia.
Qed.

End NodeCount.





(** ** C2: the loops the claim does not allow *)

(** Two nodes per latitude row are needed: with a single longitude that
    wraps, a row has one node, and the south polar face is the loop
    [0; 1; 1; 0]. *)
Lemma rll_single_wrapped_longitude :
  map Face_nodes (generate_faces ONLY_GREAT_CIRCLES 1 1 true true false 2)
  = [[0; 1; 1; 0]].
Proof. reflexivity. Qed.


(* ================================================================== *)
(** * GenerateRLLMesh: the mesh is built *)

Section MeshBuilt.

Context {D : Type} {ops : DoubleOps D}.

Lemma interior_nodes_total (dLonEdge dLatEdge : list D)
  (iInteriorLatBegin iInteriorLatEnd nLongitudeNodes : Z) :
  0 <= iInteriorLatBegin -> iInteriorLatEnd < GetRows dLatEdge ->
  nLongitudeNodes <= GetRows dLonEdge ->
  exists r, interior_nodes dLonEdge dLatEdge iInteriorLatBegin
              iInteriorLatEnd nLongitudeNodes = Done r.
Proof.
  intros Hb He Hn. unfold interior_nodes.
  apply for_each_total. intros j Hj. apply in_for_range in Hj.
  apply for_each_total. intros i Hi. apply in_for_range in Hi.
  destruct (at_in_range dLonEdge i ltac:(lia)) as (dLambda & ->).
  destruct (at_in_range dLatEdge j ltac:(lia)) as (dPhi & ->).
  simpl. eauto.
Qed.

Lemma generate_faces_rows (defined : bool) (nLongitudes nLatitudes : Z)
  (fWrapLongitudes fIncludeSouthPole fIncludeNorthPole : bool)
  (nodes_size : Z) :
  GetRows (generate_faces defined nLongitudes nLatitudes
             fWrapLongitudes fIncludeSouthPole fIncludeNorthPole nodes_size)
  = Z.max 0 nLongitudes
    * ((if fIncludeSouthPole then 1 else 0)
       + Z.max 0 ((if fIncludeNorthPole then nLatitudes - 1 else nLatitudes)
                  - (if fIncludeSouthPole then 1 else 0))
       + (if fIncludeNorthPole then 1 else 0)).
Proof.
  unfold generate_faces, GetRows. rewrite !length_app.
  unfold interior_faces.
  rewrite (flat_map_constant_length (c := Z.to_nat nLongitudes))
    by (intros; rewrite length_map, length_for_range; lia).
  rewrite length_for_range.
  destruct fIncludeSouthPole, fIncludeNorthPole;
    unfold south_polar_faces, north_polar_faces;
    rewrite ?length_map, ?length_for_range; simpl List.length; nia.
Qed.

Lemma flip_faces_total (nLongitudes nLatitudes : Z) (faceTemp : list Face) :
  0 <= nLongitudes ->
  nLongitudes * nLatitudes <= GetRows faceTemp ->
  exists faces', flip_faces nLongitudes nLatitudes faceTemp = Done faces'.
Proof.
  intros H0 Hr. unfold flip_faces.
  apply for_each_total. intros i Hi. apply in_for_range in Hi.
  apply for_each_total. intros j Hj. apply in_for_range in Hj.
  destruct (at_in_range faceTemp (j * nLongitudes + i) ltac:(nia))
    as (face & ->).
  simpl. eauto.
Qed.

(** With edge arrays of [nLongitudes + 1] and [nLatitudes + 1] entries, as
    both branches of [main] build them, every read of the mesh
    construction is in range and a mesh is built. *)
Lemma generate_mesh_total (defined : bool) (nLongitudes nLatitudes : Z)
  (dLonEdge dLatEdge : list D)
  (fWrapLongitudes fIncludeSouthPole fIncludeNorthPole fFlipLatLon : bool) :
  1 <= nLongitudes -> 1 <= nLatitudes ->
  GetRows dLonEdge = nLongitudes + 1 ->
  GetRows dLatEdge = nLatitudes + 1 ->
  exists mesh,
    generate_mesh defined nLongitudes nLatitudes dLonEdge dLatEdge
      fWrapLongitudes fIncludeSouthPole fIncludeNorthPole fFlipLatLon
    = Done mesh.
Proof.
  intros Hlon Hlat Rlon Rlat. unfold generate_mesh, generate_nodes.
  destruct (interior_nodes_total dLonEdge dLatEdge
              (if fIncludeSouthPole then 1 else 0)
              (if fIncludeNorthPole then nLatitudes - 1 else nLatitudes)
              (if fWrapLongitudes then nLongitudes else nLongitudes + 1))
    as (ins & ->).
  - destruct fIncludeSouthPole; lia.
  - destruct fIncludeNorthPole; lia.
  - destruct fWrapLongitudes; lia.
  - cbn [bind]. destruct fFlipLatLon; [|eauto].
    match goal with
    | |- context [flip_faces _ _ ?fs] =>
        destruct (flip_faces_total nLongitudes nLatitudes fs) as (fs' & ->)
    end.
    + lia.
    + rewrite generate_faces_rows.
      destruct fIncludeSouthPole, fIncludeNorthPole; nia.
    + cbn [bind]. eauto.
Qed.

End MeshBuilt.

(* ================================================================== *)
(** * GenerateRLLMesh: the edge types of the faces *)

Lemma generate_faces_edge_types (defined : bool) (nLongitudes nLatitudes : Z)
  (fWrapLongitudes fIncludeSouthPole fIncludeNorthPole : bool)
  (nodes_size : Z) (f : Face) :
  In f (generate_faces defined nLongitudes nLatitudes
          fWrapLongitudes fIncludeSouthPole fIncludeNorthPole nodes_size) ->
  map type (edges f) = quad_edge_types defined.
Proof.
  unfold generate_faces. intros Hf.
  apply in_app_or in Hf as [Hf|Hf]; [|apply in_app_or in Hf as [Hf|Hf]].
  - destruct fIncludeSouthPole; [|destruct Hf].
    apply in_map_iff in Hf as (i & <- & _). destruct defined; reflexivity.
  - apply in_flat_map in Hf as (j & _ & Hf).
    apply in_map_iff in Hf as (i & <- & _). destruct defined; reflexivity.
  - destruct fIncludeNorthPole; [|destruct Hf].
    apply in_map_iff in Hf as (i & <- & _). destruct defined; reflexivity.
Qed.

(** ** C3 *)

(** C3, as the generator has it: the type of an edge is a field of the
    edge, and GenerateRLLMesh is compiled with ONLY_GREAT_CIRCLES defined,
    which leaves out the assignments of the constant-latitude type: the
    four edges of every face it emits have the great-circle type.  (With
    the macro not defined, edges 1 and 3 of every face would have the
    constant-latitude type.) *)
Theorem rll_edge_types {D : Type} {ops : DoubleOps D}
  (defined : bool) (nLongitudes nLatitudes : Z) (dLonEdge dLatEdge : list D)
  (fWrapLongitudes fIncludeSouthPole fIncludeNorthPole fFlipLatLon : bool)
  (mesh : Mesh D) :
  generate_mesh defined nLongitudes nLatitudes dLonEdge dLatEdge
    fWrapLongitudes fIncludeSouthPole fIncludeNorthPole fFlipLatLon
  = Done mesh ->
  ONLY_GREAT_CIRCLES = true /\
  forall f, In f (faces mesh) ->
    map type (edges f)
    = if defined
      then [Type_GreatCircle; Type_GreatCircle;
            Type_GreatCircle; Type_GreatCircle]
      else [Type_GreatCircle; Type_ConstantLatitude;
            Type_GreatCircle; Type_ConstantLatitude].
Proof.
  intros Hm. split; [reflexivity|]. intros f Hf.
  unfold generate_mesh in Hm.
  destruct (generate_nodes _ _ _ _ _ _ _) as [ns| |]; simpl in Hm;
    try discriminate.
  apply (generate_faces_edge_types defined nLongitudes nLatitudes
           fWrapLongitudes fIncludeSouthPole fIncludeNorthPole (GetRows ns)).
  destruct fFlipLatLon.
  - destruct (flip_faces _ _ _) as [fs| |] eqn:Ef; simpl in Hm;
      try discriminate.
    injection Hm as <-. eapply flip_faces_incl; eassumption.
  - now injection Hm as <-.
Qed.

Lemma rll_edge_types_witness :
  exists mesh, mesh_2x3 = Done mesh /\
    forall f, In f (faces mesh) ->
      map type (edges f)
      = [Type_GreatCircle; Type_GreatCircle;
         Type_GreatCircle; Type_GreatCircle].
Proof.
  eexists. split; [reflexivity|].
  intros f Hf.
  eapply (rll_edge_types (ops := R_ops) ONLY_GREAT_CIRCLES 2 3
            (fst edges_2x3) (snd edges_2x3) false true true false);
    [reflexivity | exact Hf].
Defined.

(** C3, as stated, fails on the interior faces of the mesh of
    [--lon 2 --lat 3]: edge 1 of the face [2; 5; 4; 1] runs along a
    parallel, from node 5 to node 4, and has the great-circle type. *)
Lemma rll_parallel_edge_is_great_circle :
  exists mesh, mesh_2x3 = Done mesh /\
    ~ (forall f, In f (faces mesh) ->
         edge_type f 1 = Some Type_ConstantLatitude /\
         edge_type f 3 = Some Type_ConstantLatitude).
Proof.
  eexists. split; [reflexivity|].
  intros H.
  destruct (H (interior_face ONLY_GREAT_CIRCLES 3 1 4 0)) as [H1 _].
  - right. right. left. reflexivity.
  - discriminate H1.
Qed.

(* ================================================================== *)
(** * GenerateRLLMesh: the norm of the nodes *)

Section NodeNorm.

Local Open Scope R_scope.

Lemma Rabs_le_between (a b : R) : Rabs a <= b -> - b <= a <= b.
Proof. unfold Rabs. destruct (Rcase_abs a); lra. Qed.

(** A square moves by at most [h (2 + h)] when its argument, of magnitude
    at most 1, moves by at most [h]. *)
Lemma square_close (X x' h : R) :
  Rabs X <= 1 -> Rabs (x' - X) <= h ->
  Rabs (x' * x' - X * X) <= h * (2 + h).
Proof.
  intros HX Hx.
  apply Rabs_le_between in HX. apply Rabs_le_between in Hx. apply Rabs_le.
  replace (x' * x' - X * X) with ((x' - X) * (2 * X + (x' - X))) by ring.
  split; nra.
Qed.

Lemma product_close (a c a' c' u : R) :
  Rabs a <= 1 -> Rabs c <= 1 ->
  Rabs (a' - a) <= u -> Rabs (c' - c) <= u ->
  Rabs (a' * c' - a * c) <= 2 * u + u * u.
Proof.
  intros Ha Hc Ha' Hc'.
  apply Rabs_le_between in Ha, Hc, Ha', Hc'. apply Rabs_le.
  replace (a' * c' - a * c)
    with (a * (c' - c) + c * (a' - a) + (a' - a) * (c' - c)) by ring.
  split; nra.
Qed.

Lemma Rabs_cos_le_1 (a : R) : Rabs (cos a) <= 1.
Proof. apply Rabs_le. pose proof (COS_bound a). lra. Qed.

Lemma Rabs_sin_le_1 (a : R) : Rabs (sin a) <= 1.
Proof. apply Rabs_le. pose proof (SIN_bound a). lra. Qed.

Lemma near_bounded (a a' u : R) :
  Rabs a <= 1 -> Rabs (a' - a) <= u -> Rabs a' <= 1 + u.
Proof.
  intros Ha Ha'. apply Rabs_le_between in Ha, Ha'. apply Rabs_le. lra.
Qed.

Variable ops : DoubleOps R.
Variable u : R.
Hypothesis u_small : 0 <= u <= 1e-12.
Hypothesis ops_accurate : accurate u ops.

(** A rounded product of a rounded cosine and a rounded cosine or sine. *)
Lemma rounded_product_close (a c a' c' : R) :
  Rabs a <= 1 -> Rabs c <= 1 ->
  Rabs (a' - a) <= u -> Rabs (c' - c) <= u ->
  Rabs (d_mul a' c' - a * c) <= 4 * u.
Proof.
  intros Ha Hc Ha' Hc'.
  pose proof (acc_mul u ops ops_accurate a' c'
                (near_bounded a a' u Ha Ha') (near_bounded c c' u Hc Hc'))
    as Hm.
  pose proof (product_close a c a' c' u Ha Hc Ha' Hc') as Hp.
  apply Rabs_le_between in Hm, Hp. apply Rabs_le.
  assert (u * u <= u) by nra. lra.
Qed.

Lemma product_bounded (a c : R) :
  Rabs a <= 1 -> Rabs c <= 1 -> Rabs (a * c) <= 1.
Proof. intros Ha Hc. rewrite Rabs_mult. pose proof (Rabs_pos a). nra. Qed.

Lemma interior_node_unit (dLambda dPhi : R) :
  unit_within eps_node (interior_node dLambda dPhi).
Proof.
  unfold unit_within, norm2, interior_node, eps_node. cbn [x y z].
  pose proof (acc_cos u ops ops_accurate dPhi) as Hcp.
  pose proof (acc_cos u ops ops_accurate dLambda) as Hcl.
  pose proof (acc_sin u ops ops_accurate dLambda) as Hsl.
  pose proof (acc_sin u ops ops_accurate dPhi) as Hsp.
  pose proof (rounded_product_close _ _ _ _
                (Rabs_cos_le_1 dPhi) (Rabs_cos_le_1 dLambda) Hcp Hcl) as Hx.
  pose proof (rounded_product_close _ _ _ _
                (Rabs_cos_le_1 dPhi) (Rabs_sin_le_1 dLambda) Hcp Hsl) as Hy.
  pose proof (square_close _ _ _
                (product_bounded _ _ (Rabs_cos_le_1 dPhi)
                   (Rabs_cos_le_1 dLambda)) Hx) as Sx.
  pose proof (square_close _ _ _
                (product_bounded _ _ (Rabs_cos_le_1 dPhi)
                   (Rabs_sin_le_1 dLambda)) Hy) as Sy.
  pose proof (square_close _ _ _ (Rabs_sin_le_1 dPhi) Hsp) as Sz.
  pose proof (sin2_cos2 dPhi) as Ep. pose proof (sin2_cos2 dLambda) as El.
  unfold Rsqr in Ep, El.
  set (Xn := d_mul (d_cos dPhi) (d_cos dLambda)) in *.
  set (Yn := d_mul (d_cos dPhi) (d_sin dLambda)) in *.
  set (Zn := d_sin dPhi) in *.
  set (a := cos dPhi) in *. set (b := sin dPhi) in *.
  set (c := cos dLambda) in *. set (d := sin dLambda) in *.
  apply Rabs_le_between in Sx, Sy, Sz. apply Rabs_le.
  assert (a * c * (a * c) + a * d * (a * d) + b * b = 1) as E.
  { replace (a * c * (a * c) + a * d * (a * d) + b * b)
      with (a * a * (d * d + c * c) + b * b) by ring.
    rewrite El. lra. }
  assert (4 * u * (2 + 4 * u) <= 9 * u) by nra.
  assert (u * (2 + u) <= 3 * u) by nra.
  lra.
Qed.

Lemma south_pole_node_unit : unit_within eps_node south_pole_node.
Proof.
  unfold unit_within, norm2, south_pole_node, eps_node. cbn [x y z].
  rewrite (acc_lit_0 u ops ops_accurate), (acc_lit_m1 u ops ops_accurate).
  apply Rabs_le. lra.
Qed.

Lemma north_pole_node_unit : unit_within eps_node north_pole_node.
Proof.
  unfold unit_within, norm2, north_pole_node, eps_node. cbn [x y z].
  rewrite (acc_lit_0 u ops ops_accurate), (acc_lit_1 u ops ops_accurate).
  apply Rabs_le. lra.
Qed.

Lemma generate_nodes_unit (dLonEdge dLatEdge : list R)
  (iInteriorLatBegin iInteriorLatEnd nLongitudeNodes : Z)
  (fIncludeSouthPole fIncludeNorthPole : bool) (ns : list (Node R)) :
  generate_nodes dLonEdge dLatEdge iInteriorLatBegin iInteriorLatEnd
    nLongitudeNodes fIncludeSouthPole fIncludeNorthPole = Done ns ->
  forall nd, In nd ns -> unit_within eps_node nd.
Proof.
  unfold generate_nodes. intros H nd Hnd.
  destruct (interior_nodes _ _ _ _ _) as [ins| |] eqn:E; simpl in H;
    try discriminate.
  injection H as <-.
  apply in_app_or in Hnd as [Hnd|Hnd]; [|apply in_app_or in Hnd as [Hnd|Hnd]].
  - destruct fIncludeSouthPole; [|destruct Hnd].
    destruct Hnd as [<-|[]]. apply south_pole_node_unit.
  - unfold interior_nodes in E.
    destruct (for_each_In _ _ _ _ E Hnd) as (j & rj & _ & Hj & Hnj).
    destruct (for_each_In _ _ _ _ Hj Hnj) as (i & ri & _ & Hi & Hni).
    destruct (at_ dLonEdge i) as [dLambda| |]; simpl in Hi; try discriminate.
    destruct (at_ dLatEdge j) as [dPhi| |]; simpl in Hi; try discriminate.
    injection Hi as <-. destruct Hni as [<-|[]]. apply interior_node_unit.
  - destruct fIncludeNorthPole; [|destruct Hnd].
    destruct Hnd as [<-|[]]. apply north_pole_node_unit.
Qed.

End NodeNorm.

(** Exact arithmetic is accurate with no error at all. *)
Lemma R_ops_exact : accurate 0 R_ops.
Proof.
  split; simpl; intros;
    try (rewrite Rminus_diag, Rabs_R0; lra); lra.
Qed.

(** ** C5 *)

(** C5: every node of a mesh built by GenerateRLLMesh, the pole nodes and
    the nodes (cos phi cos lambda, cos phi sin lambda, sin phi) alike, has
    x^2 + y^2 + z^2 within 1e-10 of 1, and so has its norm.  Doubles are
    taken with their real values; [cos], [sin] and the product may each
    be off by any [u <= 1e-12] (the unit roundoff of a double is about
    1.1e-16). *)
Theorem rll_nodes_unit (ops : DoubleOps R) (u : R)
  (defined : bool) (nLongitudes nLatitudes : Z) (dLonEdge dLatEdge : list R)
  (fWrapLongitudes fIncludeSouthPole fIncludeNorthPole fFlipLatLon : bool)
  (mesh : Mesh R) :
  (0 <= u <= 1e-12)%R ->
  accurate u ops ->
  generate_mesh defined nLongitudes nLatitudes dLonEdge dLatEdge
    fWrapLongitudes fIncludeSouthPole fIncludeNorthPole fFlipLatLon
  = Done mesh ->
  forall nd, In nd (nodes mesh) ->
    (Rabs (x nd * x nd + y nd * y nd + z nd * z nd - 1) <= eps_node /\
     Rabs (sqrt (norm2 nd) - 1) <= eps_node)%R.
Proof.
  intros Hu Hacc Hm nd Hnd. unfold generate_mesh in Hm.
  destruct (generate_nodes _ _ _ _ _ _ _) as [ns| |] eqn:En; simpl in Hm;
    try discriminate.
  assert (nodes mesh = ns) as E.
  { destruct fFlipLatLon.
    - destruct (flip_faces _ _ _); simpl in Hm; try discriminate.
      now injection Hm as <-.
    - now injection Hm as <-. }
  rewrite E in Hnd.
  pose proof (generate_nodes_unit ops u Hu Hacc _ _ _ _ _ _ _ _ En nd Hnd)
    as Hn.
  unfold unit_within in Hn. split; [exact Hn|].
  replace (norm2 nd) with (1 + (norm2 nd - 1))%R by ring.
  eapply Rle_trans; [apply sqrt_var_maj|exact Hn].
  eapply Rle_trans; [exact Hn|]. unfold eps_node. lra.
Qed.

Lemma rll_nodes_unit_witness :
  exists mesh, mesh_2x3 = Done mesh /\
    forall nd, In nd (nodes mesh) ->
      (Rabs (x nd * x nd + y nd * y nd + z nd * z nd - 1) <= eps_node /\
       Rabs (sqrt (norm2 nd) - 1) <= eps_node)%R.
Proof.
  eexists. split; [reflexivity|].
  intros nd Hnd.
  eapply (rll_nodes_unit R_ops 0 ONLY_GREAT_CIRCLES 2 3
            (fst edges_2x3) (snd edges_2x3) false true true false);
    [lra | exact R_ops_exact | reflexivity | exact Hnd].
Defined.

(* ================================================================== *)
(** * GenerateRLLMesh: the reads of the bounds-setting step *)

Section SetBounds.

Context {D : Type} {ops : DoubleOps D}.

Lemma edge_array_rows (n : Z) (dBegin dDelta : D) :
  GetRows (edge_array n dBegin dDelta) = Z.max 0 (n + 1).
Proof.
  unfold edge_array, GetRows. rewrite length_map, length_for_range. lia.
Qed.

(** The first three reads are in range as soon as both arrays have passed
    the check of lines 277-282; the fourth reads the latitude array at the
    last index of the longitude array. *)
Lemma set_bounds_undefined_iff (dLonEdge dLatEdge : list D) :
  2 <= GetRows dLatEdge -> 2 <= GetRows dLonEdge ->
  set_bounds dLonEdge dLatEdge = Undefined
  <-> GetRows dLatEdge < GetRows dLonEdge.
Proof.
  intros Hlat Hlon. unfold set_bounds.
  destruct (at_in_range dLatEdge 0 ltac:(lia)) as (v0 & ->).
  destruct (at_in_range dLatEdge (GetRows dLatEdge - 1) ltac:(lia))
    as (v1 & ->).
  destruct (at_in_range dLonEdge 0 ltac:(lia)) as (v2 & ->).
  simpl. split.
  - intros H. destruct (at_ dLatEdge (GetRows dLonEdge - 1)) eqn:E;
      simpl in H; try discriminate.
    apply at_out_of_range in E. lia.
  - intros H.
    assert (at_ dLatEdge (GetRows dLonEdge - 1) = Undefined) as ->
      by (apply at_out_of_range; lia).
    reflexivity.
Qed.

Lemma set_bounds_defined (dLonEdge dLatEdge : list D) :
  2 <= GetRows dLonEdge <= GetRows dLatEdge ->
  exists b, set_bounds dLonEdge dLatEdge = Done b.
Proof.
  intros H. unfold set_bounds.
  destruct (at_in_range dLatEdge 0 ltac:(lia)) as (v0 & ->).
  destruct (at_in_range dLatEdge (GetRows dLatEdge - 1) ltac:(lia))
    as (v1 & ->).
  destruct (at_in_range dLonEdge 0 ltac:(lia)) as (v2 & ->).
  destruct (at_in_range dLatEdge (GetRows dLonEdge - 1) ltac:(lia))
    as (v3 & ->).
  simpl. eauto.
Qed.

(** With the arrays built from [--lon] and [--lat], the step reads out of
    range exactly when there are more longitudes than latitudes. *)
Lemma set_bounds_parameters (nLongitudes nLatitudes : Z)
  (dLonBegin dLonEnd dLatBegin dLatEnd : D) :
  1 <= nLongitudes -> 1 <= nLatitudes ->
  set_bounds
    (fst (edges_from_parameters nLongitudes nLatitudes
            dLonBegin dLonEnd dLatBegin dLatEnd))
    (snd (edges_from_parameters nLongitudes nLatitudes
            dLonBegin dLonEnd dLatBegin dLatEnd)) = Undefined
  <-> nLatitudes < nLongitudes.
Proof.
  intros Hlon Hlat. unfold edges_from_parameters. cbn [fst snd].
  rewrite set_bounds_undefined_iff; rewrite !edge_array_rows; lia.
Qed.

End SetBounds.

Lemma Rleb_false (a b : R) : (b < a)%R -> Rleb a b = false.
Proof. intros H. unfold Rleb. destruct (Rle_dec a b); [lra|reflexivity]. Qed.

(** ** C8 *)

(** C8 fails on the code: with the default resolution, [--lon 128
    --lat 64], the bounds-setting step reads the latitude array, of 65
    entries, at index 128 (line 288 indexes [dLatEdge] where line 286, its
    sibling, indexes the array it measures); the run has no defined
    result.  The first part holds for every arithmetic on doubles, the
    second is the whole of [main] in exact arithmetic. *)
Theorem rll_set_bounds_default_out_of_range :
  (forall (D : Type) (ops : DoubleOps D)
          (dLonBegin dLonEnd dLatBegin dLatEnd : D),
     let dLonEdge := fst (edges_from_parameters 128 64
                            dLonBegin dLonEnd dLatBegin dLatEnd) in
     let dLatEdge := snd (edges_from_parameters 128 64
                            dLonBegin dLonEnd dLatBegin dLatEnd) in
     GetRows dLatEdge = 65 /\
     GetRows dLonEdge - 1 = 128 /\
     at_ dLatEdge (GetRows dLonEdge - 1) = Undefined /\
     set_bounds dLonEdge dLatEdge = Undefined) /\
  (forall read_input_file write_mesh,
     GenerateRLLMesh.main (ops := R_ops) read_input_file write_mesh
       default_args = None).
Proof.
  split.
  - intros D ops b1 e1 b2 e2 dLonEdge dLatEdge.
    assert (GetRows dLatEdge = 65) as Hlat
      by (subst dLatEdge; unfold edges_from_parameters; cbn [snd];
          now rewrite edge_array_rows).
    assert (GetRows dLonEdge = 129) as Hlon
      by (subst dLonEdge; unfold edges_from_parameters; cbn [fst];
          now rewrite edge_array_rows).
    split; [exact Hlat|]. split; [lia|]. split.
    + apply at_out_of_range. lia.
    + apply set_bounds_undefined_iff; lia.
  - intros rd wr. unfold GenerateRLLMesh.main, main_body.
    cbn [dLatEnd dLatBegin dLonEnd dLonBegin strInputFile nLongitudes
         nLatitudes default_args].
    rewrite !Rleb_false by (simpl; lra).
    cbn [String.eqb negb].
    unfold edges_from_parameters.
    cbn [bind ea_dLatEdge ea_dLonEdge ea_nLongitudes ea_nLatitudes].
    rewrite !edge_array_rows. cbn [Z.max Z.add Z.compare Pos.compare
      Pos.compare_cont Z.ltb Pos.add Pos.succ].
    assert (forall b1 d1 b2 d2 : R,
              set_bounds (edge_array 128 b1 d1) (edge_array 64 b2 d2)
              = Undefined) as ->.
    { intros. apply set_bounds_undefined_iff; rewrite !edge_array_rows; lia. }
    reflexivity.
Qed.

(* ================================================================== *)
(** * GenerateTestData: the test index *)

Import GenerateTestData.

Lemma select_test_out_of_range (i : Z) :
  ~ (1 <= i <= 4) ->
  select_test i
  = Raise (Exception "Test index out of range; expected [1,2,3]").
Proof.
  intros H. unfold select_test.
  destruct (Z.eqb_spec i 1); [lia|]. destruct (Z.eqb_spec i 2); [lia|].
  destruct (Z.eqb_spec i 3); [lia|]. destruct (Z.eqb_spec i 4); [lia|].
  reflexivity.
Qed.

(** [select_test i = Done t <-> i = k]: the index is either outside 1..4,
    where the selection raises, or one of the four values, where the
    selection is computed. *)
Ltac selected_iff i :=
  split; [|now intros ->];
  destruct (Z_le_dec 1 i); [destruct (Z_le_dec i 4)|];
  [|rewrite select_test_out_of_range by lia; discriminate..];
  assert (i = 1 \/ i = 2 \/ i = 3 \/ i = 4)
    as [->|[->|[->| ->]]] by lia; auto; discriminate.

(** ** C9 *)

(** C9: the test indices 1, 2, 3 and 4 select the low-order harmonic, the
    high-frequency harmonic, the stationary vortex and the constant
    function; every other index raises the exception whose message gives
    the range as [1,2,3], and [main], when it gets as far as the
    selection, returns -1. *)
Theorem test_index_selection (i : Z) :
  (select_test i = Done TestFunctionY2b2 <-> i = 1) /\
  (select_test i = Done TestFunctionY16b32 <-> i = 2) /\
  (select_test i = Done TestFunctionVortex <-> i = 3) /\
  (select_test i = Done TestFunction1 <-> i = 4) /\
  (select_test i
   = Raise (Exception "Test index out of range; expected [1,2,3]")
   <-> ~ (1 <= i <= 4)) /\
  (forall triquadrule sample_and_write a,
     iTestData a = i -> ~ (1 <= i <= 4) ->
     fGLLIntegrate a && fGLL a = false ->
     triquadrule TriQuadratureOrder = Done tt ->
     GenerateTestData.main triquadrule sample_and_write a = Some (-1)).
Proof.
  assert (1 <= i <= 4 ->
          select_test i
          <> Raise (Exception "Test index out of range; expected [1,2,3]"))
    as Hin.
  { intros H. assert (i = 1 \/ i = 2 \/ i = 3 \/ i = 4)
      as [->|[->|[->| ->]]] by lia; discriminate. }
  repeat match goal with |- _ /\ _ => split end.
  - selected_iff i.
  - selected_iff i.
  - selected_iff i.
  - selected_iff i.
  - split; [|apply select_test_out_of_range].
    intros E H. exact (Hin H E).
  - intros tq sw a Ha Hi Hx Htq. unfold GenerateTestData.main, main_body.
    rewrite Hx, Htq, Ha. cbn [bind].
    rewrite select_test_out_of_range by assumption. reflexivity.
Qed.

Lemma test_index_selection_witness :
  select_test 5
  = Raise (Exception "Test index out of range; expected [1,2,3]") /\
  GenerateTestData.main (fun _ => Done tt) (fun _ _ => Done tt)
    (GenerateTestData.mkArgs EmptyString 5 false false 4 false
       "Psi" "testdata.nc" false false) = Some (-1).
Proof.
  destruct (test_index_selection 5) as (_ & _ & _ & _ & H5 & Hmain).
  split.
  - apply H5. lia.
  - apply Hmain; [reflexivity | lia | reflexivity | reflexivity].
Defined.

(* ================================================================== *)
(** * GenerateTestData: the stationary vortex *)

Section VortexTotal.

Context {D : Type} {ops : DoubleOps D}.

(** What the evaluation needs of the arithmetic: [cosh] is never zero,
    and neither are the literals [2.0] and [5.0]. *)
Hypothesis cosh_nonzero : forall r, d_eqb (d_cosh r) (d_lit 0 0) = false.
Hypothesis two_nonzero : d_eqb (d_lit 2 0) (d_lit 0 0) = false.
Hypothesis five_nonzero : d_eqb (d_lit 5 0) (d_lit 0 0) = false.

Lemma vortex_Vt_total (dRho : D) : exists dVt, vortex_Vt dRho = Some dVt.
Proof.
  unfold vortex_Vt, checked_div.
  rewrite two_nonzero. cbn [obind]. rewrite cosh_nonzero. cbn [obind].
  eauto.
Qed.

(** The division by [dRho] is behind the test [dRho == 0.0]. *)
Lemma vortex_omega_total (dVt dRho : D) :
  vortex_omega dVt dRho
  = Some (if d_eqb dRho (d_lit 0 0) then d_lit 0 0 else d_div dVt dRho).
Proof.
  unfold vortex_omega, checked_div.
  destruct (d_eqb dRho (d_lit 0 0)); reflexivity.
Qed.

Lemma Vortex_total (dLon dLat : D) : exists v, Vortex dLon dLat = Some v.
Proof.
  unfold Vortex.
  destruct (RotatedSphereCoord _ _ dLon dLat) as [dLonT dLatT].
  destruct (vortex_Vt_total (d_mul (d_lit 3 0) (d_cos dLatT))) as (dVt & ->).
  cbn [obind]. rewrite vortex_omega_total. cbn [obind].
  unfold checked_div. rewrite five_nonzero. cbn [obind]. eauto.
Qed.

End VortexTotal.

Lemma cosh_pos (r : R) : (0 < cosh r)%R.
Proof.
  unfold cosh. pose proof (exp_pos r). pose proof (exp_pos (- r)). lra.
Qed.

Lemma Reqb_false (a b : R) : a <> b -> Reqb a b = false.
Proof.
  intros H. unfold Reqb. destruct (Req_dec_T a b); [contradiction|reflexivity].
Qed.

Lemma Reqb_true (a b : R) : a = b -> Reqb a b = true.
Proof.
  intros H. unfold Reqb. destruct (Req_dec_T a b); [reflexivity|contradiction].
Qed.

(** ** C10 *)

(** C10: evaluating the stationary vortex divides by zero for no
    (longitude, latitude): the evaluation returns a value; the angular
    velocity is 0 when rho = 0 and Vt / rho, the only division by rho,
    otherwise.  Doubles are taken with their real values. *)
Theorem vortex_total (dLon dLat : R) :
  (exists v, Vortex (ops := R_ops) dLon dLat = Some v) /\
  (forall dVt dRho : R,
     (dRho = 0%R -> vortex_omega (ops := R_ops) dVt dRho = Some 0%R) /\
     (dRho <> 0%R ->
      vortex_omega (ops := R_ops) dVt dRho = Some (dVt / dRho)%R /\
      checked_div (ops := R_ops) dVt dRho = Some (dVt / dRho)%R) /\
     (dRho = 0%R -> checked_div (ops := R_ops) dVt dRho = None)).
Proof.
  assert (d_lit (DoubleOps := R_ops) 0 0 = 0%R) as Z0 by (simpl; lra).
  split.
  - apply (Vortex_total (ops := R_ops)).
    + intros r. apply Reqb_false. rewrite Z0.
      pose proof (cosh_pos r). simpl. lra.
    + apply Reqb_false. simpl. lra.
    + apply Reqb_false. simpl. lra.
  - intros dVt dRho. unfold vortex_omega, checked_div.
    cbn [d_eqb d_div R_ops]. rewrite Z0. repeat split.
    + intros ->. now rewrite Reqb_true.
    + now rewrite Reqb_false.
    + now rewrite Reqb_false.
    + intros ->. now rewrite Reqb_true.
Qed.

(* ================================================================== *)
(** * The exit codes of the three programs *)

Import GenerateOverlapMeshExe.




(** ** C4 *)



(* ================================================================== *)
(** * GenerateOverlapMeshExe_v1: the method option *)

(** ** C6 *)



(* ================================================================== *)
(** * GenerateRLLMesh on parameters: sizes, indices and edges *)

Import GenerateRLLMesh.
Import RealDoubles.

(* ================================================================== *)
(** * More on loops *)

Lemma for_range_nil (lo hi : Z) : hi <= lo -> for_range lo hi = [].
Proof.
  intros H. unfold for_range.
  replace (Z.to_nat (hi - lo)) with 0%nat by lia. reflexivity.
Qed.

Lemma for_range_cons (lo hi : Z) :
  lo < hi -> for_range lo hi = lo :: for_range (lo + 1) hi.
Proof.
  intros H. unfold for_range.
  replace (Z.to_nat (hi - lo)) with (S (Z.to_nat (hi - (lo + 1)))) by lia.
  cbn [seq map]. f_equal; [lia|].
  rewrite <- seq_shift, map_map. apply map_ext. intros k. lia.
Qed.

Lemma nth_error_for_range (lo hi : Z) (k : nat) :
  nth_error (for_range lo hi) k
  = if (Z.of_nat k <? hi - lo) then Some (lo + Z.of_nat k) else None.
Proof.
  unfold for_range. rewrite nth_error_map, nth_error_seq.
  destruct (Z.ltb_spec (Z.of_nat k) (hi - lo));
    destruct (Nat.ltb_spec k (Z.to_nat (hi - lo))); try lia; reflexivity.
Qed.

Lemma at_nth_error {A : Type} (v : list A) (i : Z) (a : A) :
  at_ v i = Done a <-> 0 <= i /\ nth_error v (Z.to_nat i) = Some a.
Proof.
  unfold at_. destruct (Z.ltb_spec i 0).
  - split; [discriminate|lia].
  - destruct (nth_error v (Z.to_nat i)); split;
      try discriminate; try (intros [= <-]; auto);
      try (intros [_ [= <-]]; auto); intros [_ ?]; discriminate.
Qed.

(** A loop whose iterations all succeed appends their results. *)
Lemma for_each_flat_map {A : Type} (l : list Z) (body : Z -> Run (list A))
  (rows : Z -> list A) :
  (forall i, In i l -> body i = Done (rows i)) ->
  for_each l body = Done (flat_map rows l).
Proof.
  induction l as [|i l IH]; intros H; simpl; [reflexivity|].
  rewrite (H i (or_introl eq_refl)). simpl.
  rewrite IH by (intros; apply H; now right). reflexivity.
Qed.

Lemma nth_error_flat_map_rows {A B : Type} (rows : A -> list B) (c : nat)
  (l : list A) (a b : nat) :
  (forall i, In i l -> List.length (rows i) = c) ->
  (b < c)%nat ->
  nth_error (flat_map rows l) (a * c + b)
  = match nth_error l a with
    | Some i => nth_error (rows i) b
    | None => None
    end.
Proof.
  revert a. induction l as [|i l IH]; intros a Hc Hb; simpl.
  - rewrite nth_error_nil. now destruct a.
  - destruct a as [|a]; simpl.
    + apply nth_error_app1. rewrite Hc by now left. exact Hb.
    + rewrite nth_error_app2 by (rewrite Hc by (now left); lia).
      rewrite Hc by now left.
      replace (c + a * c + b - c)%nat with (a * c + b)%nat by lia.
      apply IH; [|exact Hb]. intros; apply Hc; now right.
Qed.

(* ================================================================== *)
(** * GenerateRLLMesh: sizes and indices of the mesh *)

Lemma flip_faces_rows (nLongitudes nLatitudes : Z) (faceTemp faces' : list Face) :
  flip_faces nLongitudes nLatitudes faceTemp = Done faces' ->
  GetRows faces' = Z.max 0 nLongitudes * Z.max 0 nLatitudes.
Proof.
  intros H. unfold flip_faces in H. unfold GetRows.
  rewrite (for_each_length _ _ (Z.to_nat nLatitudes) _ H).
  - rewrite length_for_range. lia.
  - intros i ri _ Hi.
    rewrite (for_each_length _ _ 1%nat _ Hi).
    + rewrite length_for_range. lia.
    + intros j rj _ Hj.
      destruct (at_ faceTemp (j * nLongitudes + i)); simpl in Hj;
        try discriminate.
      now injection Hj as <-.
Qed.

(** The mesh of [generate_mesh]: its nodes, and the faces before the
    reordering of [--flip]. *)
Lemma generate_mesh_inv {D : Type} {ops : DoubleOps D}
  (defined : bool) (nLongitudes nLatitudes : Z) (dLonEdge dLatEdge : list D)
  (fWrapLongitudes fIncludeSouthPole fIncludeNorthPole fFlipLatLon : bool)
  (mesh : Mesh D) :
  generate_mesh defined nLongitudes nLatitudes dLonEdge dLatEdge
    fWrapLongitudes fIncludeSouthPole fIncludeNorthPole fFlipLatLon
  = Done mesh ->
  GetRows (nodes mesh)
  = (if fIncludeSouthPole then 1 else 0)
    + Z.max 0 (if fWrapLongitudes then nLongitudes else nLongitudes + 1)
      * Z.max 0 ((if fIncludeNorthPole then nLatitudes - 1 else nLatitudes)
                 + 1 - (if fIncludeSouthPole then 1 else 0))
    + (if fIncludeNorthPole then 1 else 0) /\
  (if fFlipLatLon
   then flip_faces nLongitudes nLatitudes
          (generate_faces defined nLongitudes nLatitudes fWrapLongitudes
             fIncludeSouthPole fIncludeNorthPole (GetRows (nodes mesh)))
        = Done (faces mesh)
   else faces mesh
        = generate_faces defined nLongitudes nLatitudes fWrapLongitudes
            fIncludeSouthPole fIncludeNorthPole (GetRows (nodes mesh))).
Proof.
  intros Hm. unfold generate_mesh in Hm.
  destruct (generate_nodes _ _ _ _ _ _ _) as [ns| |] eqn:En; simpl in Hm;
    try discriminate.
  apply generate_nodes_length in En.
  destruct fFlipLatLon.
  - destruct (flip_faces _ _ _) as [fs| |] eqn:Ef; simpl in Hm;
      try discriminate.
    injection Hm as <-. simpl. split; [exact En|exact Ef].
  - injection Hm as <-. simpl. split; [exact En|reflexivity].
Qed.

Lemma generate_mesh_node_count {D : Type} {ops : DoubleOps D}
  (defined : bool) (nLongitudes nLatitudes : Z) (dLonEdge dLatEdge : list D)
  (fWrapLongitudes fIncludeSouthPole fIncludeNorthPole fFlipLatLon : bool)
  (mesh : Mesh D) :
  1 <= nLongitudes -> 1 <= nLatitudes ->
  generate_mesh defined nLongitudes nLatitudes dLonEdge dLatEdge
    fWrapLongitudes fIncludeSouthPole fIncludeNorthPole fFlipLatLon
  = Done mesh ->
  GetRows (nodes mesh)
  = (if fIncludeSouthPole then 1 else 0)
    + (if fWrapLongitudes then nLongitudes else nLongitudes + 1)
      * (nLatitudes + 1 - (if fIncludeSouthPole then 1 else 0)
                        - (if fIncludeNorthPole then 1 else 0))
    + (if fIncludeNorthPole then 1 else 0).
Proof.
  intros Hlon Hlat Hm.
  destruct (generate_mesh_inv _ _ _ _ _ _ _ _ _ _ Hm) as [Hn _].
  rewrite Hn.
  destruct fWrapLongitudes, fIncludeSouthPole, fIncludeNorthPole; nia.
Qed.

(** X1: A mesh built by GenerateRLLMesh for [nLongitudes >= 1] and
    [nLatitudes >= 1] (two latitudes at least when both poles are
    included) has [nLongitudes * nLatitudes] faces, with or without
    [--flip], and one row of longitude nodes per latitude line that is
    not a pole, plus the pole nodes. *)
Theorem rll_mesh_sizes {D : Type} {ops : DoubleOps D}
  (defined : bool) (nLongitudes nLatitudes : Z) (dLonEdge dLatEdge : list D)
  (fWrapLongitudes fIncludeSouthPole fIncludeNorthPole fFlipLatLon : bool)
  (mesh : Mesh D) :
  1 <= nLongitudes -> 1 <= nLatitudes ->
  2 <= nLatitudes \/ fIncludeSouthPole && fIncludeNorthPole = false ->
  generate_mesh defined nLongitudes nLatitudes dLonEdge dLatEdge
    fWrapLongitudes fIncludeSouthPole fIncludeNorthPole fFlipLatLon
  = Done mesh ->
  GetRows (faces mesh) = nLongitudes * nLatitudes /\
  GetRows (nodes mesh)
  = (if fIncludeSouthPole then 1 else 0)
    + (if fWrapLongitudes then nLongitudes else nLongitudes + 1)
      * (nLatitudes + 1 - (if fIncludeSouthPole then 1 else 0)
                        - (if fIncludeNorthPole then 1 else 0))
    + (if fIncludeNorthPole then 1 else 0).
Proof.
  intros Hlon Hlat Hp Hm.
  destruct (generate_mesh_inv _ _ _ _ _ _ _ _ _ _ Hm) as [Hn Hf].
  split.
  - destruct fFlipLatLon.
    + rewrite (flip_faces_rows _ _ _ _ Hf). lia.
    + rewrite Hf, generate_faces_rows.
      destruct fIncludeSouthPole, fIncludeNorthPole; simpl in Hp; nia.
  - eapply generate_mesh_node_count; eassumption.
Qed.

Lemma rll_mesh_sizes_witness :
  exists mesh, mesh_2x3 = Done mesh /\
    GetRows (faces mesh) = 6 /\ GetRows (nodes mesh) = 8.
Proof.
  eexists. split; [reflexivity|].
  apply (rll_mesh_sizes (ops := R_ops) ONLY_GREAT_CIRCLES 2 3
           (fst edges_2x3) (snd edges_2x3) false true true false);
    [lia | lia | left; lia | reflexivity].
Defined.




(** With one latitude and both poles there is no row of interior nodes,
    and the polar faces name nodes the mesh does not have. *)
Lemma rll_one_latitude_both_poles :
  map Face_nodes (generate_faces ONLY_GREAT_CIRCLES 1 1 false true true 2)
  = [[0; 2; 1; 0]; [1; -1; 0; 1]].
Proof. reflexivity. Qed.

(* ================================================================== *)
(** * GenerateRLLMesh: the loops of the faces *)




(** ** C2 *)



(* ================================================================== *)
(** * GenerateRLLMesh: the reordering of [--flip] *)

Lemma at_nth {A : Type} (v : list A) (i : Z) (d : A) :
  0 <= i < GetRows v -> at_ v i = Done (nth (Z.to_nat i) v d).
Proof.
  intros H. apply at_nth_error. split; [lia|].
  apply nth_error_nth'. unfold GetRows in H. lia.
Qed.

(** The reordered vector, read at [i * nLatitudes + j], is the original
    vector read at [j * nLongitudes + i]. *)
Lemma flip_faces_spec (nLongitudes nLatitudes : Z) (faceTemp : list Face) :
  0 <= nLongitudes -> 0 <= nLatitudes ->
  nLongitudes * nLatitudes <= GetRows faceTemp ->
  exists faces',
    flip_faces nLongitudes nLatitudes faceTemp = Done faces' /\
    GetRows faces' = nLongitudes * nLatitudes /\
    forall i j, 0 <= i < nLongitudes -> 0 <= j < nLatitudes ->
      nth_error faces' (Z.to_nat (i * nLatitudes + j))
      = nth_error faceTemp (Z.to_nat (j * nLongitudes + i)).
Proof.
  intros Hlon Hlat Hrows.
  set (d := Face_new 0).
  set (row := fun i =>
         map (fun j => nth (Z.to_nat (j * nLongitudes + i)) faceTemp d)
             (for_range 0 nLatitudes)).
  assert (flip_faces nLongitudes nLatitudes faceTemp
          = Done (flat_map row (for_range 0 nLongitudes))) as E.
  { unfold flip_faces. apply for_each_flat_map. intros i Hi.
    apply in_for_range in Hi. unfold row.
    rewrite (for_each_flat_map _ _
               (fun j => [nth (Z.to_nat (j * nLongitudes + i)) faceTemp d])).
    - f_equal.
    - intros j Hj. apply in_for_range in Hj.
      rewrite (at_nth faceTemp (j * nLongitudes + i) d) by nia.
      reflexivity. }
  eexists. split; [exact E|]. split.
  - rewrite (flip_faces_rows _ _ _ _ E). lia.
  - intros i j Hi Hj.
    replace (Z.to_nat (i * nLatitudes + j))
      with (Z.to_nat i * Z.to_nat nLatitudes + Z.to_nat j)%nat by nia.
    rewrite (nth_error_flat_map_rows row (Z.to_nat nLatitudes)).
    + rewrite nth_error_for_range.
      destruct (Z.ltb_spec (Z.of_nat (Z.to_nat i)) (nLongitudes - 0)); [|lia].
      unfold row. rewrite nth_error_map, nth_error_for_range.
      destruct (Z.ltb_spec (Z.of_nat (Z.to_nat j)) (nLatitudes - 0)); [|lia].
      simpl. rewrite !Z2Nat.id by lia. symmetry.
      apply nth_error_nth'. unfold GetRows in Hrows. nia.
    + intros k _. unfold row. rewrite length_map, length_for_range. lia.
    + lia.
Qed.

(** X3: [--flip] transposes the vector of faces: when there are
    [nLongitudes * nLatitudes] faces, the face of longitude [i] and
    latitude [j] moves from position [j * nLongitudes + i] to position
    [i * nLatitudes + j], no face is lost, and reordering the result with
    the two counts exchanged gives the original vector back. *)
Theorem flip_faces_transposes (nLongitudes nLatitudes : Z)
  (faceTemp : list Face) :
  0 <= nLongitudes -> 0 <= nLatitudes ->
  GetRows faceTemp = nLongitudes * nLatitudes ->
  exists faces',
    flip_faces nLongitudes nLatitudes faceTemp = Done faces' /\
    GetRows faces' = GetRows faceTemp /\
    (forall i j, 0 <= i < nLongitudes -> 0 <= j < nLatitudes ->
       exists face,
         at_ faces' (i * nLatitudes + j) = Done face /\
         at_ faceTemp (j * nLongitudes + i) = Done face) /\
    flip_faces nLatitudes nLongitudes faces' = Done faceTemp.
Proof.
  intros Hlon Hlat Hrows.
  destruct (flip_faces_spec nLongitudes nLatitudes faceTemp Hlon Hlat
              ltac:(lia)) as (faces' & E & Hr & Hnth).
  exists faces'. split; [exact E|]. split; [lia|]. split.
  - intros i j Hi Hj.
    destruct (at_in_range faceTemp (j * nLongitudes + i) ltac:(nia))
      as (face & Hface).
    exists face. split; [|exact Hface].
    apply at_nth_error. apply at_nth_error in Hface as [_ Hface].
    split; [nia|]. now rewrite Hnth.
  - destruct (flip_faces_spec nLatitudes nLongitudes faces' Hlat Hlon
                ltac:(lia)) as (back & E' & Hr' & Hnth').
    rewrite E'. f_equal. apply nth_error_ext. intros k.
    destruct (Nat.lt_ge_cases k (List.length faceTemp)) as [Hk|Hk].
    + unfold GetRows in *.
      assert (0 < nLongitudes) as Hpos by nia.
      set (j := Z.of_nat k / nLongitudes).
      set (i := Z.of_nat k mod nLongitudes).
      assert (Z.of_nat k = j * nLongitudes + i) as Ek
        by (subst i j; rewrite Z.mul_comm; apply Z.div_mod; lia).
      assert (0 <= i < nLongitudes) as Hi
        by (subst i; apply Z.mod_pos_bound; lia).
      assert (0 <= j < nLatitudes) as Hj.
      { split; [subst j; apply Z.div_pos; lia|].
        apply Z.div_lt_upper_bound; [lia|]. nia. }
      replace k with (Z.to_nat (j * nLongitudes + i)) by lia.
      rewrite (Hnth' j i Hj Hi). apply Hnth; assumption.
    + rewrite (proj2 (nth_error_None faceTemp k)) by exact Hk.
      apply nth_error_None. unfold GetRows in *. lia.
Qed.

Lemma flip_faces_transposes_witness :
  exists mesh, mesh_2x3 = Done mesh /\
    flip_faces 2 3 (faces mesh)
    = Done (map (fun k => nth k (faces mesh) (Face_new 0))
                [0; 2; 4; 1; 3; 5]%nat) /\
    exists faces',
      flip_faces 2 3 (faces mesh) = Done faces' /\
      flip_faces 3 2 faces' = Done (faces mesh).
Proof.
  eexists. split; [reflexivity|]. split; [reflexivity|].
  destruct (flip_faces_transposes 2 3
              (generate_faces ONLY_GREAT_CIRCLES 2 3 false true true 8))
    as (faces' & E & _ & _ & Hback); [lia | lia | reflexivity |].
  exists faces'. split; [exact E|exact Hback].
Defined.

(* ================================================================== *)
(** * GenerateRLLMesh: a run on parameters *)

Section ParameterRun.

Context {D : Type} {ops : DoubleOps D}.

Lemma at_edge_array (n : Z) (dBegin dDelta : D) (i : Z) :
  0 <= i <= n ->
  at_ (edge_array n dBegin dDelta) i
  = Done (d_add (d_mul dDelta (d_div (d_of_int i) (d_of_int n))) dBegin).
Proof.
  intros H. apply at_nth_error. split; [lia|].
  unfold edge_array. rewrite nth_error_map, nth_error_for_range.
  destruct (Z.ltb_spec (Z.of_nat (Z.to_nat i)) (n + 1 - 0)); [|lia].
  simpl. now rewrite Z2Nat.id by lia.
Qed.

Variable read_input_file : @GenerateRLLMesh.Args D -> Run (@EdgeArrays D).
Variable write_mesh : @GenerateRLLMesh.Args D -> Mesh D -> Run unit.

(** X4: A run of GenerateRLLMesh on parameters (no [--in_file]), with
    bounds that pass the two interval tests and counts that are not
    negative and small enough for every [int] of the run, the counts plus
    one and the node indices, to stay below 2^31
    ([(nLongitudes + 1) * (nLatitudes + 1) <= 2147483647]): a count of 0
    is rejected with exit code -1; with more longitudes than latitudes
    the run has no defined result; otherwise a mesh is built and handed
    to the writer, whose ending is the ending of the run.  (A failed
    allocation is not modelled.) *)
Theorem rll_parameter_run (a : GenerateRLLMesh.Args) :
  strInputFile a = EmptyString ->
  d_le (dLatEnd a) (dLatBegin a) = false ->
  d_le (dLonEnd a) (dLonBegin a) = false ->
  0 <= nLongitudes a -> 0 <= nLatitudes a ->
  (nLongitudes a + 1) * (nLatitudes a + 1) <= 2147483647 ->
  (nLongitudes a = 0 \/ nLatitudes a = 0 ->
   GenerateRLLMesh.main read_input_file write_mesh a = Some (-1)) /\
  (1 <= nLatitudes a < nLongitudes a ->
   GenerateRLLMesh.main read_input_file write_mesh a = None) /\
  (1 <= nLongitudes a <= nLatitudes a ->
   exists b mesh,
     set_bounds
       (fst (edges_from_parameters (nLongitudes a) (nLatitudes a)
               (dLonBegin a) (dLonEnd a) (dLatBegin a) (dLatEnd a)))
       (snd (edges_from_parameters (nLongitudes a) (nLatitudes a)
               (dLonBegin a) (dLonEnd a) (dLatBegin a) (dLatEnd a)))
     = Done b /\
     generate_mesh ONLY_GREAT_CIRCLES (nLongitudes a) (nLatitudes a)
       (fst (edges_from_parameters (nLongitudes a) (nLatitudes a)
               (dLonBegin a) (dLonEnd a) (dLatBegin a) (dLatEnd a)))
       (snd (edges_from_parameters (nLongitudes a) (nLatitudes a)
               (dLonBegin a) (dLonEnd a) (dLatBegin a) (dLatEnd a)))
       (wrap_longitudes b) (include_south_pole b) (include_north_pole b)
       (fFlipLatLon a) = Done mesh /\
     GenerateRLLMesh.main read_input_file write_mesh a
     = main_try (write_mesh a mesh)).
Proof.
  intros Hfile Hlat Hlon Hn Hm _.
  unfold GenerateRLLMesh.main, main_body.
  rewrite Hlat, Hlon, Hfile. cbn [String.eqb negb].
  unfold edges_from_parameters. cbn [bind fst snd].
  cbn [ea_dLatEdge ea_dLonEdge ea_nLongitudes ea_nLatitudes].
  rewrite !edge_array_rows.
  set (lonE := edge_array (nLongitudes a) _ _).
  set (latE := edge_array (nLatitudes a) _ _).
  split; [|split].
  - intros [E|E].
    + destruct (Z.ltb_spec (Z.max 0 (nLatitudes a + 1)) 2); [reflexivity|].
      destruct (Z.ltb_spec (Z.max 0 (nLongitudes a + 1)) 2); [reflexivity|].
      lia.
    + destruct (Z.ltb_spec (Z.max 0 (nLatitudes a + 1)) 2); [reflexivity|].
      lia.
  - intros H.
    destruct (Z.ltb_spec (Z.max 0 (nLatitudes a + 1)) 2); [lia|].
    destruct (Z.ltb_spec (Z.max 0 (nLongitudes a + 1)) 2); [lia|].
    assert (set_bounds lonE latE = Undefined) as ->.
    { apply set_bounds_undefined_iff; subst lonE latE;
        rewrite !edge_array_rows; lia. }
    reflexivity.
  - intros H.
    destruct (Z.ltb_spec (Z.max 0 (nLatitudes a + 1)) 2); [lia|].
    destruct (Z.ltb_spec (Z.max 0 (nLongitudes a + 1)) 2); [lia|].
    destruct (set_bounds_defined lonE latE) as (b & Eb).
    { subst lonE latE. rewrite !edge_array_rows. lia. }
    destruct (generate_mesh_total ONLY_GREAT_CIRCLES
                (nLongitudes a) (nLatitudes a) lonE latE
                (wrap_longitudes b) (include_south_pole b)
                (include_north_pole b) (fFlipLatLon a))
      as (mesh & Em); try lia;
      try (subst lonE latE; rewrite edge_array_rows; lia).
    exists b, mesh. rewrite Eb. cbn [bind]. rewrite Em. cbn [bind].
    repeat split; reflexivity.
Qed.

End ParameterRun.

Lemma rll_parameter_run_witness :
  GenerateRLLMesh.main (ops := R_ops)
    (fun _ => Undefined) (fun _ _ => Done tt)
    (GenerateRLLMesh.mkArgs 2 3 (d_lit 0 0) (d_lit 360 0)
       (d_lit (-90) 0) (d_lit 90 0) false EmptyString false false
       "outRLLMesh.g")
  = Some 0.
Proof.
  destruct (rll_parameter_run (ops := R_ops)
              (fun _ => Undefined) (fun _ _ => Done tt)
              (GenerateRLLMesh.mkArgs 2 3 (d_lit 0 0) (d_lit 360 0)
                 (d_lit (-90) 0) (d_lit 90 0) false EmptyString false false
                 "outRLLMesh.g"))
    as (_ & _ & H);
    [reflexivity
    | apply Rleb_false; simpl; lra
    | apply Rleb_false; simpl; lra
    | simpl; lia | simpl; lia | simpl; lia |].
  destruct H as (b & mesh & _ & _ & E); [simpl; lia|].
  rewrite E. reflexivity.
Defined.

(* ================================================================== *)
(** * GenerateRLLMesh: the parameters in exact arithmetic *)

Section ExactParameters.

Local Open Scope R_scope.

Lemma lit_int (m : Z) : d_lit (DoubleOps := R_ops) m 0 = IZR m.
Proof. simpl. lra. Qed.

Lemma lit_half : d_lit (DoubleOps := R_ops) 5 (-1) = / 2.
Proof. simpl. lra. Qed.

Lemma lit_1em12 : d_lit (DoubleOps := R_ops) 1 (-12) = 1e-12.
Proof. simpl. lra. Qed.

Lemma deg2rad_exact (d : R) :
  deg2rad (ops := R_ops) d = d * (PI / 180).
Proof. unfold deg2rad. cbn [d_mul d_div M_PI R_ops]. rewrite lit_int. reflexivity. Qed.

Lemma Rltb_true (a b : R) : a < b -> Rltb a b = true.
Proof. intros H. unfold Rltb. destruct (Rlt_dec a b); [reflexivity|lra]. Qed.

Lemma Rltb_false (a b : R) : b <= a -> Rltb a b = false.
Proof. intros H. unfold Rltb. destruct (Rlt_dec a b); [lra|reflexivity]. Qed.

(** An entry of an edge array in exact arithmetic. *)
Lemma at_edge_array_exact (n : Z) (dBegin dDelta : R) (i : Z) :
  (0 <= i <= n)%Z ->
  at_ (edge_array (ops := R_ops) n dBegin dDelta) i
  = Done (dDelta * (IZR i / IZR n) + dBegin).
Proof. intros H. now rewrite at_edge_array. Qed.

Lemma Rtrunc_small (r : R) : -1 < r < 1 -> Rtrunc r = 0%Z.
Proof.
  intros H. unfold Rtrunc. destruct (Rlt_dec r 0).
  - rewrite <- (Int_part_spec (- r) 0); [reflexivity|]. simpl. lra.
  - symmetry. apply Int_part_spec. simpl. lra.
Qed.

Lemma Rfmod_small (a b : R) : 0 < b -> - b < a < b -> Rfmod a b = a.
Proof.
  intros Hb Ha. unfold Rfmod. rewrite Rtrunc_small; [simpl; lra|].
  split.
  - apply Rmult_lt_reg_r with b; [exact Hb|]. unfold Rdiv.
    rewrite Rmult_assoc, Rinv_l by lra. lra.
  - apply Rmult_lt_reg_r with b; [exact Hb|]. unfold Rdiv.
    rewrite Rmult_assoc, Rinv_l by lra. lra.
Qed.

End ExactParameters.

Section DefaultBounds.

Local Open Scope R_scope.

(** [dLatEdge[k]] for the default latitude bounds, -90 and 90 degrees. *)
Lemma default_latitude_edge (m k : Z) :
  (1 <= m)%Z ->
  (deg2rad (ops := R_ops) (d_lit 90 0) - deg2rad (ops := R_ops) (d_lit (-90) 0))
  * (IZR k / IZR m) + deg2rad (ops := R_ops) (d_lit (-90) 0)
  = PI * (IZR k / IZR m) - PI / 2.
Proof.
  intros Hm. rewrite !deg2rad_exact, !lit_int.
  assert (IZR m <> 0) by (apply not_0_IZR; lia). field. assumption.
Qed.

(** X5: In exact arithmetic, for a run on parameters with the default bounds
    ([--lon_begin 0], latitudes from -90 to 90) and
    [1 <= nLongitudes <= nLatitudes < 2147483647] (so that
    [nLatitudes + 1] is an [int]): both poles are included, and,
    [dLonEnd] being read from the latitude edges, the longitudes are taken
    to wrap exactly when [2 * nLongitudes <= nLatitudes], whatever
    [--lon_end] is. *)
Theorem rll_default_bounds_flags (nLongitudes nLatitudes : Z) (dLonEnd : R) :
  (1 <= nLongitudes <= nLatitudes)%Z -> (nLatitudes < 2147483647)%Z ->
  exists b,
    set_bounds
      (fst (edges_from_parameters (ops := R_ops) nLongitudes nLatitudes
              (d_lit 0 0) dLonEnd (d_lit (-90) 0) (d_lit 90 0)))
      (snd (edges_from_parameters (ops := R_ops) nLongitudes nLatitudes
              (d_lit 0 0) dLonEnd (d_lit (-90) 0) (d_lit 90 0)))
    = Done b /\
    include_south_pole b = true /\
    include_north_pole b = true /\
    wrap_longitudes b = (2 * nLongitudes <=? nLatitudes)%Z.
Proof.
  intros Hn Hm. unfold edges_from_parameters. cbn [fst snd].
  unfold set_bounds. rewrite !edge_array_rows.
  replace (Z.max 0 (nLatitudes + 1) - 1)%Z with nLatitudes by lia.
  replace (Z.max 0 (nLongitudes + 1) - 1)%Z with nLongitudes by lia.
  rewrite !at_edge_array_exact by lia. cbn [bind].
  eexists. split; [reflexivity|].
  assert (0 < IZR nLatitudes) as Mpos by (apply IZR_lt; lia).
  assert (0 < IZR nLongitudes) as Npos by (apply IZR_lt; lia).
  assert (IZR nLatitudes <= 2147483647) as Mmax by (apply IZR_le; lia).
  assert (IZR nLongitudes <= IZR nLatitudes) as Hnm by (apply IZR_le; lia).
  pose proof PI2_1 as Hpi. pose proof PI_4 as Hpi4.
  split; [|split].
  - unfold include_south_pole. cbn [b_dLatBegin d_lt d_fabs d_add d_sub d_mul M_PI R_ops].
    rewrite (default_latitude_edge nLatitudes 0) by lia.
    rewrite lit_half, lit_1em12.
    replace (PI * (0 / IZR nLatitudes) - PI / 2 + / 2 * PI) with 0
      by (field; lra).
    rewrite Rabs_R0. apply Rltb_true. lra.
  - unfold include_north_pole. cbn [b_dLatEnd d_lt d_fabs d_sub d_mul M_PI R_ops].
    rewrite (default_latitude_edge nLatitudes nLatitudes) by lia.
    rewrite lit_half, lit_1em12.
    replace (PI * (IZR nLatitudes / IZR nLatitudes) - PI / 2 - / 2 * PI)
      with 0 by (field; lra).
    rewrite Rabs_R0. apply Rltb_true. lra.
  - unfold wrap_longitudes.
    cbn [b_dLonEnd b_dLonBegin d_lt d_fmod d_sub d_mul M_PI R_ops].
    rewrite (default_latitude_edge nLatitudes nLongitudes) by lia.
    rewrite !deg2rad_exact, !lit_int, lit_1em12.
    set (q := IZR nLongitudes / IZR nLatitudes).
    assert (q * IZR nLatitudes = IZR nLongitudes) as Eq
      by (subst q; field; lra).
    assert (0 < q <= 1) as Hq by (split; nra).
    replace (PI * q - PI / 2
             - ((dLonEnd * (PI / 180) - 0 * (PI / 180))
                * (0 / IZR nLongitudes) + 0 * (PI / 180)))
      with (PI * q - PI / 2) by (field; lra).
    rewrite Rfmod_small by nra.
    destruct (Z.leb_spec (2 * nLongitudes) nLatitudes) as [H2|H2].
    + apply Rltb_true.
      assert (2 * IZR nLongitudes <= IZR nLatitudes)
        by (rewrite <- mult_IZR; apply IZR_le; lia).
      nra.
    + apply Rltb_false.
      assert (IZR nLatitudes + 1 <= 2 * IZR nLongitudes)
        by (rewrite <- mult_IZR, <- plus_IZR; apply IZR_le; lia).
      assert (PI <= (PI * q - PI / 2) * (2 * IZR nLatitudes)) by nra.
      nra.
Qed.

End DefaultBounds.

Lemma rll_default_bounds_flags_witness :
  exists b,
    set_bounds (fst edges_2x3) (snd edges_2x3) = Done b /\
    include_south_pole b = true /\
    include_north_pole b = true /\
    wrap_longitudes b = false.
Proof.
  apply (rll_default_bounds_flags 2 3 (d_lit 360 0)); lia.
Defined.

(* ================================================================== *)
(** * GenerateRLLMesh: the edge arrays in rounded arithmetic *)

Import RoundedDoubles.

Section Atan2Range.

Local Open Scope R_scope.

Lemma atan_nonpos (r : R) : r <= 0 -> atan r <= 0.
Proof.
  intros [H | ->]; [|rewrite atan_0; lra].
  pose proof (atan_increasing r 0 H) as Hi. rewrite atan_0 in Hi. lra.
Qed.

Lemma atan_pos (r : R) : 0 < r -> 0 < atan r.
Proof.
  intros H. pose proof (atan_increasing 0 r H) as Hi.
  now rewrite atan_0 in Hi.
Qed.

Lemma Ratan2_bound (b a : R) : - PI < Ratan2 b a <= PI.
Proof.
  pose proof PI_RGT_0 as Hpi. unfold Ratan2.
  destruct (Rlt_dec 0 a) as [Ha|Ha].
  - pose proof (atan_bound (b / a)). lra.
  - destruct (Rlt_dec a 0) as [Ha'|Ha'].
    + pose proof (atan_bound (b / a)) as Hb.
      assert (/ a < 0) as Hinv by (apply Rinv_lt_0_compat; exact Ha').
      destruct (Rle_dec 0 b) as [Hb0|Hb0].
      * assert (b / a <= 0) by (unfold Rdiv; nra).
        pose proof (atan_nonpos _ H). lra.
      * assert (0 < b / a) by (unfold Rdiv; nra).
        pose proof (atan_pos _ H). lra.
    + destruct (Rlt_dec 0 b); [lra|]. destruct (Rlt_dec b 0); lra.
Qed.

End Atan2Range.

Section Rounded.

Local Open Scope R_scope.

(** Exact arithmetic is the instance in which nothing rounds. *)
Lemma R_ops_rounded : rounded (fun r => r) R_ops.
Proof.
  constructor; try reflexivity; cbn [d_cos d_sin d_pow d_atan2 M_PI R_ops].
  - intros a b H. exact H.
  - intros n _. apply lit_int.
  - apply COS_bound.
  - apply SIN_bound.
  - intros a e H. exact H.
  - intros b a. pose proof (Ratan2_bound b a). lra.
Qed.

Variable rnd : R -> R.
Variable ops : DoubleOps R.
Hypothesis Hr : rounded rnd ops.

Lemma rnd_0 : rnd 0 = 0.
Proof. apply (rnd_int rnd ops Hr 0). lia. Qed.

Lemma rnd_1 : rnd 1 = 1.
Proof. apply (rnd_int rnd ops Hr 1). lia. Qed.

(** A rounded value stays between two integers that enclose the exact
    value. *)
Lemma rnd_between (lo hi : Z) (a : R) :
  (-2147483648 <= lo <= 2147483647)%Z ->
  (-2147483648 <= hi <= 2147483647)%Z ->
  IZR lo <= a <= IZR hi -> IZR lo <= rnd a <= IZR hi.
Proof.
  intros Hlo Hhi [H1 H2]. split.
  - rewrite <- (rnd_int rnd ops Hr lo Hlo).
    apply (rnd_monotone rnd ops Hr). exact H1.
  - rewrite <- (rnd_int rnd ops Hr hi Hhi).
    apply (rnd_monotone rnd ops Hr). exact H2.
Qed.

Lemma M_PI_nonneg : 0 <= M_PI.
Proof.
  rewrite (rd_pi rnd ops Hr), <- rnd_0.
  apply (rnd_monotone rnd ops Hr). pose proof PI_RGT_0. lra.
Qed.

Lemma M_PI_rounded : rnd M_PI = M_PI.
Proof. rewrite (rd_pi rnd ops Hr). apply (rnd_idempotent rnd ops Hr). Qed.

(** The factor [M_PI / 180.0]. *)
Lemma deg2rad_rounded (d : R) :
  deg2rad d = rnd (d * rnd (M_PI / 180)) /\ 0 <= rnd (M_PI / 180).
Proof.
  unfold deg2rad.
  rewrite (rd_mul rnd ops Hr), (rd_lit rnd ops Hr 180) by lia.
  rewrite (rd_div rnd ops Hr) by lra.
  split; [reflexivity|].
  rewrite <- rnd_0. apply (rnd_monotone rnd ops Hr).
  pose proof M_PI_nonneg. lra.
Qed.

Lemma deg2rad_monotone (a b : R) : a <= b -> deg2rad a <= deg2rad b.
Proof.
  intros H.
  destruct (deg2rad_rounded a) as [-> Hk].
  destruct (deg2rad_rounded b) as [-> _].
  apply (rnd_monotone rnd ops Hr). nra.
Qed.

Lemma deg2rad_is_rounded (a : R) : rnd (deg2rad a) = deg2rad a.
Proof.
  destruct (deg2rad_rounded a) as [-> _]. apply (rnd_idempotent rnd ops Hr).
Qed.

(** An entry of an edge array. *)
Lemma at_edge_array_rounded (n : Z) (dBegin dDelta : R) (i : Z) :
  (1 <= n < 2147483647)%Z -> (0 <= i <= n)%Z ->
  at_ (edge_array n dBegin dDelta) i
  = Done (rnd (rnd (dDelta * rnd (IZR i / IZR n)) + dBegin)).
Proof.
  intros Hn Hi. rewrite at_edge_array by lia.
  rewrite (rd_add rnd ops Hr), (rd_mul rnd ops Hr).
  rewrite !(rd_of_int rnd ops Hr) by lia.
  rewrite (rd_div rnd ops Hr) by (apply not_0_IZR; lia).
  reflexivity.
Qed.

Lemma edge_array_first (n : Z) (dBegin dDelta : R) :
  (1 <= n < 2147483647)%Z -> rnd dBegin = dBegin ->
  at_ (edge_array n dBegin dDelta) 0 = Done dBegin.
Proof.
  intros Hn Hb. rewrite at_edge_array_rounded by lia. f_equal.
  unfold Rdiv. rewrite Rmult_0_l, rnd_0, Rmult_0_r, rnd_0, Rplus_0_l.
  exact Hb.
Qed.

Lemma edge_array_last (n : Z) (dBegin dDelta : R) :
  (1 <= n < 2147483647)%Z -> rnd dDelta = dDelta ->
  at_ (edge_array n dBegin dDelta) n = Done (d_add dDelta dBegin).
Proof.
  intros Hn Hd. rewrite at_edge_array_rounded by lia. f_equal.
  unfold Rdiv. rewrite Rinv_r by (apply not_0_IZR; lia).
  rewrite rnd_1, Rmult_1_r, Hd. symmetry. apply (rd_add rnd ops Hr).
Qed.

Lemma edge_array_nondecreasing (n : Z) (dBegin dDelta : R) (i j : Z) (a b : R) :
  (1 <= n < 2147483647)%Z -> 0 <= dDelta -> (0 <= i <= j)%Z -> (j <= n)%Z ->
  at_ (edge_array n dBegin dDelta) i = Done a ->
  at_ (edge_array n dBegin dDelta) j = Done b ->
  a <= b.
Proof.
  intros Hn Hd Hij Hj Ha Hb.
  rewrite at_edge_array_rounded in Ha, Hb by lia.
  injection Ha as <-. injection Hb as <-.
  assert (0 < IZR n) by (apply IZR_lt; lia).
  assert (IZR i <= IZR j) by (apply IZR_le; lia).
  assert (IZR i / IZR n <= IZR j / IZR n).
  { unfold Rdiv. apply Rmult_le_compat_r; [|assumption].
    apply Rlt_le, Rinv_0_lt_compat. assumption. }
  apply (rnd_monotone rnd ops Hr). apply Rplus_le_compat_r.
  apply (rnd_monotone rnd ops Hr). apply Rmult_le_compat_l; [exact Hd|].
  apply (rnd_monotone rnd ops Hr). assumption.
Qed.

(** X6: For doubles that round monotonically (the model [rounded]), the
    edge arrays of a run on parameters, with counts between 1 and
    2147483646 and begin bounds below the end bounds: the first entry is
    the begin bound converted to radians, exactly; the last entry is
    [(end - begin) + begin] as computed in radians, which need not be the
    end bound; and the entries never decrease from one to the next. *)
Theorem rll_parameter_edges (nLongitudes nLatitudes : Z)
  (dLonBegin dLonEnd dLatBegin dLatEnd : R) :
  (1 <= nLongitudes < 2147483647)%Z -> (1 <= nLatitudes < 2147483647)%Z ->
  dLonBegin < dLonEnd -> dLatBegin < dLatEnd ->
  let dLonEdge :=
    fst (edges_from_parameters nLongitudes nLatitudes
           dLonBegin dLonEnd dLatBegin dLatEnd) in
  let dLatEdge :=
    snd (edges_from_parameters nLongitudes nLatitudes
           dLonBegin dLonEnd dLatBegin dLatEnd) in
  at_ dLonEdge 0 = Done (deg2rad dLonBegin) /\
  at_ dLonEdge nLongitudes
  = Done (d_add (d_sub (deg2rad dLonEnd) (deg2rad dLonBegin))
            (deg2rad dLonBegin)) /\
  at_ dLatEdge 0 = Done (deg2rad dLatBegin) /\
  at_ dLatEdge nLatitudes
  = Done (d_add (d_sub (deg2rad dLatEnd) (deg2rad dLatBegin))
            (deg2rad dLatBegin)) /\
  (forall i j a b, (0 <= i <= j)%Z -> (j <= nLongitudes)%Z ->
     at_ dLonEdge i = Done a -> at_ dLonEdge j = Done b -> a <= b) /\
  (forall i j a b, (0 <= i <= j)%Z -> (j <= nLatitudes)%Z ->
     at_ dLatEdge i = Done a -> at_ dLatEdge j = Done b -> a <= b).
Proof.
  intros Hn Hm Hlon Hlat dLonEdge dLatEdge. subst dLonEdge dLatEdge.
  unfold edges_from_parameters. cbn [fst snd].
  assert (forall b e, b < e ->
            rnd (d_sub (deg2rad e) (deg2rad b))
            = d_sub (deg2rad e) (deg2rad b) /\
            0 <= d_sub (deg2rad e) (deg2rad b)) as Hdelta.
  { intros b e Hbe. rewrite (rd_sub rnd ops Hr).
    split; [apply (rnd_idempotent rnd ops Hr)|].
    rewrite <- rnd_0. apply (rnd_monotone rnd ops Hr).
    pose proof (deg2rad_monotone b e ltac:(lra)). lra. }
  destruct (Hdelta _ _ Hlon) as [Rlon Plon].
  destruct (Hdelta _ _ Hlat) as [Rlat Plat].
  split; [apply edge_array_first; [lia|apply deg2rad_is_rounded]|].
  split; [apply edge_array_last; [lia|exact Rlon]|].
  split; [apply edge_array_first; [lia|apply deg2rad_is_rounded]|].
  split; [apply edge_array_last; [lia|exact Rlat]|].
  split; intros i j a b Hij Hj;
    apply edge_array_nondecreasing; assumption || lia.
Qed.

End Rounded.

Lemma rll_parameter_edges_witness :
  at_ (fst edges_2x3) 0 = Done (deg2rad (ops := R_ops) (d_lit 0 0)) /\
  (forall i j a b, 0 <= i <= j -> j <= 3 ->
     at_ (snd edges_2x3) i = Done a -> at_ (snd edges_2x3) j = Done b ->
     (a <= b)%R).
Proof.
  destruct (rll_parameter_edges (fun r => r) R_ops R_ops_rounded 2 3
              (d_lit 0 0) (d_lit 360 0) (d_lit (-90) 0) (d_lit 90 0))
    as (H0 & _ & _ & _ & _ & Hlat);
    [lia | lia | simpl; lra | simpl; lra |].
  split; [exact H0|exact Hlat].
Defined.


(* ================================================================== *)
(** * GenerateRLLMesh on an input file *)

Import GenerateRLLMeshInput.

(* ================================================================== *)
(** * Writes and loops over arrays *)

Lemma update_length {A : Type} (l : list A) (k : nat) (g : A -> A) :
  List.length (update l k g) = List.length l.
Proof.
  revert k. induction l as [|a l IH]; intros [|k]; simpl; auto.
Qed.

Lemma nth_error_update {A : Type} (l : list A) (k k' : nat) (g : A -> A) :
  nth_error (update l k g) k'
  = if Nat.eqb k k' then option_map g (nth_error l k) else nth_error l k'.
Proof.
  revert k k'. induction l as [|a l IH]; intros [|k] [|k']; simpl; auto.
  - now destruct (Nat.eqb k k').
Qed.

Lemma set_in_range {A : Type} (v : list A) (i : Z) (a : A) :
  0 <= i < GetRows v ->
  set_ v i a = Done (update v (Z.to_nat i) (fun _ => a)).
Proof.
  intros H. unfold set_.
  destruct (Z.ltb_spec i 0); [lia|].
  destruct (Z.leb_spec (GetRows v) i); [lia|]. reflexivity.
Qed.

Lemma set_rows {A : Type} (v v' : list A) (i : Z) (a : A) :
  set_ v i a = Done v' -> GetRows v' = GetRows v.
Proof.
  unfold set_. destruct (_ || _); [discriminate|].
  intros [= <-]. unfold GetRows. now rewrite update_length.
Qed.

Lemma at_set_same {A : Type} (v v' : list A) (i : Z) (a : A) :
  set_ v i a = Done v' -> at_ v' i = Done a.
Proof.
  unfold set_.
  destruct (Z.ltb_spec i 0); [discriminate|].
  destruct (Z.leb_spec (GetRows v) i); [discriminate|].
  simpl. intros [= <-]. apply at_nth_error. split; [lia|].
  rewrite nth_error_update, Nat.eqb_refl.
  destruct (nth_error v (Z.to_nat i)) eqn:E; [reflexivity|].
  apply nth_error_None in E. unfold GetRows in *. lia.
Qed.

Lemma at_set_other {A : Type} (v v' : list A) (i k : Z) (a : A) :
  set_ v i a = Done v' -> k <> i -> at_ v' k = at_ v k.
Proof.
  unfold set_.
  destruct (Z.ltb_spec i 0); [discriminate|].
  destruct (Z.leb_spec (GetRows v) i); [discriminate|].
  simpl. intros [= <-] Hk. unfold at_.
  destruct (Z.ltb_spec k 0); [reflexivity|].
  rewrite nth_error_update.
  destruct (Nat.eqb_spec (Z.to_nat i) (Z.to_nat k)); [lia|reflexivity].
Qed.

Lemma Initialize_rows {D : Type} {ops : DoubleOps D} (n : Z) :
  GetRows (Initialize (ops := ops) n) = Z.max 0 n.
Proof. unfold Initialize, GetRows. rewrite repeat_length. lia. Qed.

(** A loop that assigns entry [i] of an array at iteration [i], from the
    entries it has not assigned yet: afterwards the entries of the range
    hold the assigned values and the others are unchanged. *)
Lemma for_state_assign {A : Type} (body : Z -> list A -> Run (list A))
  (val : Z -> A) (lo0 hi : Z) (s0 : list A) :
  0 <= lo0 -> hi <= GetRows s0 ->
  (forall i s, lo0 <= i < hi -> GetRows s = GetRows s0 ->
     (forall k, i <= k -> at_ s k = at_ s0 k) ->
     body i s = set_ s i (val i)) ->
  forall lo s, lo0 <= lo -> GetRows s = GetRows s0 ->
    (forall k, lo <= k -> at_ s k = at_ s0 k) ->
    exists s',
      for_state (for_range lo hi) body s = Done s' /\
      GetRows s' = GetRows s0 /\
      (forall k, lo <= k < hi -> at_ s' k = Done (val k)) /\
      (forall k, ~ (lo <= k < hi) -> at_ s' k = at_ s k).
Proof.
  intros Hlo0 Hhi Hbody lo. remember (Z.to_nat (hi - lo)) as n eqn:En.
  revert lo En. induction n as [|n IH]; intros lo En s Hlo Hrows Hs.
  - rewrite for_range_nil by lia. exists s. simpl.
    repeat split; auto. intros; lia.
  - rewrite for_range_cons by lia. simpl.
    rewrite (Hbody lo s) by (auto; lia).
    rewrite set_in_range by lia. simpl.
    set (s1 := update s (Z.to_nat lo) (fun _ => val lo)).
    assert (set_ s lo (val lo) = Done s1) as E1
      by (apply set_in_range; lia).
    destruct (IH (lo + 1) ltac:(lia) s1) as (s' & Es & Hr & Hin & Hout).
    + lia.
    + rewrite (set_rows _ _ _ _ E1). exact Hrows.
    + intros k Hk. rewrite (at_set_other _ _ _ k _ E1) by lia.
      apply Hs. lia.
    + exists s'. repeat split; auto.
      * intros k Hk. destruct (Z.eq_dec k lo) as [->|Hne].
        -- rewrite Hout by lia. exact (at_set_same _ _ _ _ E1).
        -- apply Hin. lia.
      * intros k Hk. rewrite Hout by lia.
        apply (at_set_other _ _ _ k _ E1). lia.
Qed.

(* ================================================================== *)
(** * GenerateRLLMesh: the edge arrays of an input file *)

Section InputFile.

Context {D : Type} {ops : DoubleOps D}.

Lemma check_monotone_spec (dNode : list D) (n : Z) (msg : string) :
  n <= GetRows dNode ->
  (check_monotone dNode n msg = Done tt /\
   forall i, 0 <= i < n - 1 -> ~ decreasing_at dNode i) \/
  (check_monotone dNode n msg = Raise (Exception msg) /\
   exists i, 0 <= i < n - 1 /\ decreasing_at dNode i).
Proof.
  intros Hn. unfold check_monotone.
  assert (forall lo, 0 <= lo ->
    (for_state (for_range lo (n - 1)) (fun i _ =>
       a <- at_ dNode i ;; b <- at_ dNode (i + 1) ;;
       if d_lt b a then _EXCEPTIONT msg else Done tt) tt = Done tt /\
     forall i, lo <= i < n - 1 -> ~ decreasing_at dNode i) \/
    (for_state (for_range lo (n - 1)) (fun i _ =>
       a <- at_ dNode i ;; b <- at_ dNode (i + 1) ;;
       if d_lt b a then _EXCEPTIONT msg else Done tt) tt
     = Raise (Exception msg) /\
     exists i, lo <= i < n - 1 /\ decreasing_at dNode i)) as H.
  { intros lo. remember (Z.to_nat (n - 1 - lo)) as k eqn:Ek.
    revert lo Ek. induction k as [|k IH]; intros lo Ek Hlo.
    - rewrite for_range_nil by lia. left. split; [reflexivity|]. intros; lia.
    - rewrite for_range_cons by lia. simpl.
      destruct (at_in_range dNode lo ltac:(lia)) as (a & Ea).
      destruct (at_in_range dNode (lo + 1) ltac:(lia)) as (b & Eb).
      rewrite Ea, Eb. simpl. destruct (d_lt b a) eqn:Elt.
      + right. split; [reflexivity|]. exists lo. split; [lia|].
        exists a, b. auto.
      + simpl. destruct (IH (lo + 1) ltac:(lia) ltac:(lia))
          as [[E Hall]|[E (i & Hi & Hd)]].
        * left. split; [exact E|]. intros i Hi.
          destruct (Z.eq_dec i lo) as [->|Hne]; [|apply Hall; lia].
          intros (a' & b' & Ea' & Eb' & Hlt). congruence.
        * right. split; [exact E|]. exists i. split; [lia|exact Hd]. }
  apply H. lia.
Qed.

Lemma fill_midpoints_spec (dNode : list D) (n : Z) (dEdge : list D) (d : D) :
  n <= GetRows dNode -> n <= GetRows dEdge ->
  exists dEdge',
    fill_midpoints dNode n dEdge = Done dEdge' /\
    GetRows dEdge' = GetRows dEdge /\
    (forall k, 1 <= k < n ->
       at_ dEdge' k
       = Done (midpoint (nth (Z.to_nat (k - 1)) dNode d)
                        (nth (Z.to_nat k) dNode d))) /\
    (forall k, ~ (1 <= k < n) -> at_ dEdge' k = at_ dEdge k).
Proof.
  intros Hnode Hedge. unfold fill_midpoints.
  apply (for_state_assign _
           (fun k => midpoint (nth (Z.to_nat (k - 1)) dNode d)
                              (nth (Z.to_nat k) dNode d))
           1 n dEdge); try lia; auto.
  intros i s Hi _ _.
  rewrite (at_nth dNode (i - 1) d), (at_nth dNode i d) by lia.
  reflexivity.
Qed.

Lemma to_radians_spec (n : Z) (dEdge : list D) (d : D) :
  n + 1 <= GetRows dEdge ->
  exists dEdge',
    to_radians n dEdge = Done dEdge' /\
    GetRows dEdge' = GetRows dEdge /\
    (forall k, 0 <= k <= n ->
       at_ dEdge' k = Done (deg2rad (nth (Z.to_nat k) dEdge d))) /\
    (forall k, ~ (0 <= k <= n) -> at_ dEdge' k = at_ dEdge k).
Proof.
  intros Hedge. unfold to_radians.
  destruct (for_state_assign
              (fun i dEdge => e <- at_ dEdge i ;; set_ dEdge i (deg2rad e))
              (fun k => deg2rad (nth (Z.to_nat k) dEdge d))
              0 (n + 1) dEdge ltac:(lia) Hedge) with (lo := 0) (s := dEdge)
    as (s' & E & Hr & Hin & Hout); try lia; auto.
  - intros i s Hi Hrows Hs.
    rewrite (Hs i ltac:(lia)), (at_nth dEdge i d) by lia. reflexivity.
  - exists s'. repeat split; auto.
    + intros k Hk. apply Hin. lia.
    + intros k Hk. apply Hout. lia.
Qed.

Lemma set_ok {A : Type} (v : list A) (i : Z) (a : A) :
  0 <= i < GetRows v ->
  exists v', set_ v i a = Done v' /\ GetRows v' = GetRows v /\
             at_ v' i = Done a /\
             forall k, k <> i -> at_ v' k = at_ v k.
Proof.
  intros H. eexists. split; [apply set_in_range; exact H|].
  pose proof (set_in_range v i a H) as E.
  split; [exact (set_rows _ _ _ _ E)|].
  split; [exact (at_set_same _ _ _ _ E)|].
  intros k Hk. exact (at_set_other _ _ _ k _ E Hk).
Qed.

Lemma latitude_edges_spec (dLatNode : list D) (nLatitudes : Z) (d : D) :
  2 <= nLatitudes <= GetRows dLatNode ->
  exists dLatEdge,
    latitude_edges dLatNode nLatitudes = Done dLatEdge /\
    GetRows dLatEdge = nLatitudes + 1 /\
    at_ dLatEdge 0
    = Done (first_latitude_edge (nth 0 dLatNode d) (nth 1 dLatNode d)) /\
    at_ dLatEdge nLatitudes
    = Done (last_latitude_edge
              (nth (Z.to_nat (nLatitudes - 2)) dLatNode d)
              (nth (Z.to_nat (nLatitudes - 1)) dLatNode d)) /\
    (forall k, 1 <= k < nLatitudes ->
       at_ dLatEdge k
       = Done (midpoint (nth (Z.to_nat (k - 1)) dLatNode d)
                        (nth (Z.to_nat k) dLatNode d))).
Proof.
  intros H. unfold latitude_edges.
  pose proof (Initialize_rows (ops := ops) (nLatitudes + 1)) as R0.
  rewrite (at_nth dLatNode 0 d), (at_nth dLatNode 1 d) by lia.
  cbn [bind].
  change (Z.to_nat 0) with 0%nat. change (Z.to_nat 1) with 1%nat.
  set (n0 := nth 0 dLatNode d). set (n1 := nth 1 dLatNode d).
  destruct (set_ok (Initialize (ops := ops) (nLatitudes + 1)) 0
              (d_sub n0 (d_mul (d_lit 5 (-1)) (d_sub n1 n0))) ltac:(lia))
    as (v1 & -> & R1 & S1 & O1).
  cbn [bind]. rewrite S1. cbn [bind].
  assert (exists v2,
            (if d_lt (d_sub n0 (d_mul (d_lit 5 (-1)) (d_sub n1 n0)))
                     (d_lit (-90) 0)
             then set_ v1 0 (d_lit (-90) 0) else Done v1) = Done v2 /\
            GetRows v2 = nLatitudes + 1 /\
            at_ v2 0 = Done (first_latitude_edge n0 n1))
    as (v2 & -> & R2 & S2).
  { unfold first_latitude_edge.
    destruct (d_lt _ (d_lit (-90) 0)).
    - destruct (set_ok v1 0 (d_lit (-90) 0) ltac:(lia))
        as (v2 & -> & R2 & S2 & _).
      exists v2. repeat split; auto. lia.
    - exists v1. repeat split; auto. lia. }
  cbn [bind].
  rewrite (at_nth dLatNode (nLatitudes - 1) d),
          (at_nth dLatNode (nLatitudes - 2) d) by lia.
  cbn [bind].
  set (nl := nth (Z.to_nat (nLatitudes - 1)) dLatNode d).
  set (nl2 := nth (Z.to_nat (nLatitudes - 2)) dLatNode d).
  destruct (set_ok v2 nLatitudes
              (d_add nl (d_mul (d_lit 5 (-1)) (d_sub nl nl2))) ltac:(lia))
    as (v3 & -> & R3 & S3 & O3).
  cbn [bind]. rewrite S3. cbn [bind].
  assert (exists v4,
            (if d_lt (d_lit 90 0)
                     (d_add nl (d_mul (d_lit 5 (-1)) (d_sub nl nl2)))
             then set_ v3 nLatitudes (d_lit 90 0) else Done v3) = Done v4 /\
            GetRows v4 = nLatitudes + 1 /\
            at_ v4 nLatitudes = Done (last_latitude_edge nl2 nl) /\
            at_ v4 0 = Done (first_latitude_edge n0 n1))
    as (v4 & -> & R4 & S4 & S40).
  { unfold last_latitude_edge.
    destruct (d_lt (d_lit 90 0) _).
    - destruct (set_ok v3 nLatitudes (d_lit 90 0) ltac:(lia))
        as (v4 & -> & R4 & S4 & O4).
      exists v4. repeat split; auto; [lia|].
      rewrite O4, O3 by lia. exact S2.
    - exists v3. repeat split; auto; [lia|].
      rewrite O3 by lia. exact S2. }
  cbn [bind].
  destruct (fill_midpoints_spec dLatNode nLatitudes v4 d)
    as (v5 & E5 & R5 & Hin & Hout); try lia.
  exists v5. split; [exact E5|]. split; [lia|].
  split; [rewrite Hout by lia; exact S40|].
  split; [rewrite Hout by lia; exact S4|]. exact Hin.
Qed.

Lemma longitude_edges_spec (dLonNode : list D) (nLongitudes : Z)
  (fForceGlobal : bool) :
  2 <= nLongitudes <= GetRows dLonNode ->
  exists dLonEdge fForceGlobal',
    longitude_edges dLonNode nLongitudes fForceGlobal
    = Done (dLonEdge, fForceGlobal') /\
    GetRows dLonEdge = nLongitudes + 1 /\
    (fForceGlobal = true -> fForceGlobal' = true) /\
    (fForceGlobal' = true ->
     exists e, at_ dLonEdge 0 = Done e /\ at_ dLonEdge nLongitudes = Done e).
Proof.
  intros H. unfold longitude_edges.
  pose proof (Initialize_rows (ops := ops) (nLongitudes + 1)) as R0.
  destruct (at_in_range dLonNode 1 ltac:(lia)) as (n1 & ->).
  destruct (at_in_range dLonNode 0 ltac:(lia)) as (n0 & E0).
  rewrite E0.
  destruct (at_in_range dLonNode (nLongitudes - 1) ltac:(lia)) as (nl & ->).
  destruct (at_in_range dLonNode (nLongitudes - 2) ltac:(lia)) as (nl2 & ->).
  cbn [bind].
  set (fg := if d_lt _ (d_lit 1 (-12)) then true else fForceGlobal).
  assert (fForceGlobal = true -> fg = true) as Hfg
    by (intros ->; subst fg; now destruct (d_lt _ _)).
  destruct fg eqn:Efg.
  - destruct (set_ok (Initialize (ops := ops) (nLongitudes + 1)) 0
                (d_mul (d_lit 5 (-1)) (d_sub (d_add n0 nl) (d_lit 360 0)))
                ltac:(lia)) as (v1 & -> & R1 & S1 & O1).
    cbn [bind]. rewrite S1. cbn [bind].
    destruct (set_ok v1 nLongitudes
                (d_mul (d_lit 5 (-1)) (d_sub (d_add n0 nl) (d_lit 360 0)))
                ltac:(lia)) as (v2 & -> & R2 & S2 & O2).
    cbn [bind].
    destruct (fill_midpoints_spec dLonNode nLongitudes v2 n0)
      as (v3 & -> & R3 & Hin & Hout); try lia.
    cbn [bind]. exists v3, true. repeat split; auto; [lia|].
    intros _. eexists. split.
    + rewrite Hout, O2 by lia. exact S1.
    + rewrite Hout by lia. exact S2.
  - destruct (set_ok (Initialize (ops := ops) (nLongitudes + 1)) 0
                (d_sub n0 (d_mul (d_lit 5 (-1)) (d_sub n1 n0)))
                ltac:(lia)) as (v1 & -> & R1 & S1 & O1).
    cbn [bind].
    destruct (set_ok v1 nLongitudes
                (d_add nl (d_mul (d_lit 5 (-1)) (d_sub nl nl2)))
                ltac:(lia)) as (v2 & -> & R2 & S2 & O2).
    cbn [bind].
    destruct (fill_midpoints_spec dLonNode nLongitudes v2 n0)
      as (v3 & -> & R3 & Hin & Hout); try lia.
    cbn [bind]. exists v3, false. repeat split; auto; [lia|discriminate].
Qed.

End InputFile.

Section InputFileRun.

Context {D : Type} {ops : DoubleOps D}.

(** The outcome of the branch on a file that has the two dimensions and
    the two variables, with at least two nodes each way. *)
Lemma edges_from_file_spec (nc : NcInput) (strInputFile : string)
  (fForceGlobal : bool) (nLongitudes nLatitudes : Z)
  (dLonNode dLatNode : list D) (d : D) :
  is_valid nc = true ->
  dimLon nc = Some nLongitudes -> dimLat nc = Some nLatitudes ->
  varLon nc = Some dLonNode -> varLat nc = Some dLatNode ->
  2 <= nLongitudes <= GetRows dLonNode ->
  2 <= nLatitudes <= GetRows dLatNode ->
  (edges_from_file nc strInputFile fForceGlobal
   = Raise (Exception "Longitudes must be monotone increasing") /\
   exists i, 0 <= i < nLongitudes - 1 /\ decreasing_at dLonNode i) \/
  (edges_from_file nc strInputFile fForceGlobal
   = Raise (Exception "Latitudes must be monotone increasing") /\
   (forall i, 0 <= i < nLongitudes - 1 -> ~ decreasing_at dLonNode i) /\
   exists j, 0 <= j < nLatitudes - 1 /\ decreasing_at dLatNode j) \/
  (exists ea,
     edges_from_file nc strInputFile fForceGlobal = Done ea /\
     (forall i, 0 <= i < nLongitudes - 1 -> ~ decreasing_at dLonNode i) /\
     (forall j, 0 <= j < nLatitudes - 1 -> ~ decreasing_at dLatNode j) /\
     ea_nLongitudes ea = nLongitudes /\ ea_nLatitudes ea = nLatitudes /\
     GetRows (ea_dLonEdge ea) = nLongitudes + 1 /\
     GetRows (ea_dLatEdge ea) = nLatitudes + 1 /\
     at_ (ea_dLatEdge ea) 0
     = Done (deg2rad (first_latitude_edge (nth 0 dLatNode d)
                                          (nth 1 dLatNode d))) /\
     at_ (ea_dLatEdge ea) nLatitudes
     = Done (deg2rad (last_latitude_edge
                        (nth (Z.to_nat (nLatitudes - 2)) dLatNode d)
                        (nth (Z.to_nat (nLatitudes - 1)) dLatNode d))) /\
     (forall k, 1 <= k < nLatitudes ->
        at_ (ea_dLatEdge ea) k
        = Done (deg2rad (midpoint (nth (Z.to_nat (k - 1)) dLatNode d)
                                  (nth (Z.to_nat k) dLatNode d))))).
Proof.
  intros Hv HdLon HdLat HvLon HvLat Hn Hm. unfold edges_from_file.
  rewrite Hv, HdLon, HdLat, HvLon, HvLat. cbn [negb deref].
  destruct (Z.ltb_spec nLongitudes 2); [lia|].
  destruct (Z.ltb_spec nLatitudes 2); [lia|]. cbn [bind].
  destruct (check_monotone_spec dLonNode nLongitudes
              "Longitudes must be monotone increasing" ltac:(lia))
    as [[-> Hlon]|[-> Hlon]]; [|left; split; [reflexivity|exact Hlon]].
  cbn [bind]. right.
  destruct (check_monotone_spec dLatNode nLatitudes
              "Latitudes must be monotone increasing" ltac:(lia))
    as [[-> Hlat]|[-> Hlat]]; [|left; repeat split; auto].
  cbn [bind]. right.
  destruct (longitude_edges_spec dLonNode nLongitudes fForceGlobal Hn)
    as (lonE & fg & -> & Rlon & _ & _).
  cbn [bind fst].
  destruct (latitude_edges_spec dLatNode nLatitudes d Hm)
    as (latE & -> & Rlat & L0 & Ll & Lk).
  cbn [bind].
  destruct (to_radians_spec nLongitudes lonE d ltac:(lia))
    as (lonR & -> & RlonR & _ & _).
  cbn [bind].
  destruct (to_radians_spec nLatitudes latE d ltac:(lia))
    as (latR & -> & RlatR & Hin & _).
  cbn [bind]. eexists. split; [reflexivity|].
  cbn [ea_nLongitudes ea_nLatitudes ea_dLonEdge ea_dLatEdge].
  assert (forall k e, 0 <= k <= nLatitudes -> at_ latE k = Done e ->
                      at_ latR k = Done (deg2rad e)) as Hrad.
  { intros k e Hk He. rewrite Hin by exact Hk.
    rewrite (at_nth latE k d) in He by lia. now injection He as ->. }
  repeat match goal with |- _ /\ _ => split end; auto; try lia.
  - apply Hrad; [lia|exact L0].
  - apply Hrad; [lia|exact Ll].
  - intros k Hk. apply Hrad; [lia|]. apply Lk. exact Hk.
Qed.

End InputFileRun.

Section InputFileMain.

Context {D : Type} {ops : DoubleOps D}.

Variable nc : string -> @NcInput D.
Variable write_mesh : @GenerateRLLMesh.Args D -> Mesh D -> Run unit.

(** X7: A run of GenerateRLLMesh on an input file that has the dimensions and
    variables [lon] and [lat], with at least two nodes each way: a
    decreasing pair of longitudes or latitudes ends the run with exit code
    -1; otherwise the edge arrays have one entry more than there are
    nodes, and the run has no defined result when the file has more
    longitudes than latitudes, and builds a mesh and hands it to the
    writer when it has not. *)
Theorem rll_input_file_run (a : GenerateRLLMesh.Args)
  (nLongitudes nLatitudes : Z) (dLonNode dLatNode : list D) :
  strInputFile a <> EmptyString ->
  d_le (dLatEnd a) (dLatBegin a) = false ->
  d_le (dLonEnd a) (dLonBegin a) = false ->
  is_valid (nc (strInputFile a)) = true ->
  dimLon (nc (strInputFile a)) = Some nLongitudes ->
  dimLat (nc (strInputFile a)) = Some nLatitudes ->
  varLon (nc (strInputFile a)) = Some dLonNode ->
  varLat (nc (strInputFile a)) = Some dLatNode ->
  2 <= nLongitudes <= GetRows dLonNode ->
  2 <= nLatitudes <= GetRows dLatNode ->
  ((exists i, 0 <= i < nLongitudes - 1 /\ decreasing_at dLonNode i) \/
   (exists j, 0 <= j < nLatitudes - 1 /\ decreasing_at dLatNode j) ->
   GenerateRLLMesh.main (read_input_file nc) write_mesh a = Some (-1)) /\
  ((forall i, 0 <= i < nLongitudes - 1 -> ~ decreasing_at dLonNode i) ->
   (forall j, 0 <= j < nLatitudes - 1 -> ~ decreasing_at dLatNode j) ->
   exists ea,
     read_input_file nc a = Done ea /\
     GetRows (ea_dLonEdge ea) = nLongitudes + 1 /\
     GetRows (ea_dLatEdge ea) = nLatitudes + 1 /\
     (nLatitudes < nLongitudes ->
      GenerateRLLMesh.main (read_input_file nc) write_mesh a = None) /\
     (nLongitudes <= nLatitudes ->
      exists mesh,
        GetRows (faces mesh) = nLongitudes * nLatitudes /\
        GenerateRLLMesh.main (read_input_file nc) write_mesh a
        = main_try (write_mesh a mesh))).
Proof.
  intros Hfile Hlat Hlon Hv HdLon HdLat HvLon HvLat Hn Hm.
  assert (D) as d
    by (destruct dLonNode; [unfold GetRows in Hn; simpl in Hn; lia|assumption]).
  unfold GenerateRLLMesh.main, main_body. rewrite Hlat, Hlon.
  destruct (String.eqb_spec (strInputFile a) EmptyString) as [E|_];
    [contradiction|]. cbn [negb].
  unfold read_input_file.
  destruct (edges_from_file_spec (nc (strInputFile a)) (strInputFile a)
              (fForceGlobal a) nLongitudes nLatitudes dLonNode dLatNode d
              Hv HdLon HdLat HvLon HvLat Hn Hm)
    as [[-> (i & Hi & Hd)]
       |[[-> (Hall & j & Hj & Hd)]
        |(ea & -> & Hall & Hall' & En & Em & Rlon & Rlat & _)]].
  - split; [reflexivity|]. intros H _. exfalso. exact (H i Hi Hd).
  - split; [reflexivity|]. intros _ H. exfalso. exact (H j Hj Hd).
  - split.
    + intros [(i & Hi & Hd)|(j & Hj & Hd)]; exfalso;
        [exact (Hall i Hi Hd)|exact (Hall' j Hj Hd)].
    + intros _ _. exists ea. split; [reflexivity|].
      split; [exact Rlon|]. split; [exact Rlat|].
      cbn [bind]. rewrite Rlon, Rlat, En, Em.
      destruct (Z.ltb_spec (nLatitudes + 1) 2); [lia|].
      destruct (Z.ltb_spec (nLongitudes + 1) 2); [lia|].
      split.
      * intros H'.
        assert (set_bounds (ea_dLonEdge ea) (ea_dLatEdge ea) = Undefined)
          as -> by (apply set_bounds_undefined_iff; lia).
        reflexivity.
      * intros H'.
        destruct (set_bounds_defined (ea_dLonEdge ea) (ea_dLatEdge ea))
          as (b & ->); [lia|].
        cbn [bind].
        destruct (generate_mesh_total ONLY_GREAT_CIRCLES
                    nLongitudes nLatitudes (ea_dLonEdge ea) (ea_dLatEdge ea)
                    (wrap_longitudes b) (include_south_pole b)
                    (include_north_pole b) (fFlipLatLon a))
          as (mesh & Em'); try lia.
        exists mesh. rewrite Em'. cbn [bind]. split; [|reflexivity].
        destruct (generate_mesh_inv _ _ _ _ _ _ _ _ _ _ Em') as [_ Hf].
        destruct (fFlipLatLon a).
        -- rewrite (flip_faces_rows _ _ _ _ Hf). lia.
        -- rewrite Hf, generate_faces_rows.
           destruct (include_south_pole b), (include_north_pole b); nia.
Qed.

End InputFileMain.

Lemma rll_input_file_run_witness :
  GenerateRLLMesh.main (ops := R_ops)
    (read_input_file
       (fun _ => mkNcInput true (Some 2) (Some 2)
                   (Some [180%R; 0%R]) (Some [(-45)%R; 45%R])))
    (fun _ _ => Done tt)
    (GenerateRLLMesh.mkArgs 128 64 (d_lit 0 0) (d_lit 360 0)
       (d_lit (-90) 0) (d_lit 90 0) false "in.nc" false false
       "outRLLMesh.g")
  = Some (-1).
Proof.
  eapply (rll_input_file_run (ops := R_ops) _ _ _ 2 2
            [180%R; 0%R] [(-45)%R; 45%R]);
    try reflexivity; try discriminate;
    try (apply Rleb_false; simpl; lra);
    try (unfold GetRows; simpl; lia).
  left. exists 0. split; [lia|].
  exists 180%R, 0%R. repeat split. apply Rltb_true. lra.
Defined.

(* ================================================================== *)
(** * GenerateRLLMesh: what the input-file branch can raise *)

Lemma bind_raise {A B : Type} (m : Run A) (k : A -> Run B) (t : Thrown) :
  bind m k = Raise t ->
  m = Raise t \/ exists a, m = Done a /\ k a = Raise t.
Proof.
  destruct m as [a|t'|]; simpl; intros H.
  - right. eauto.
  - left. now injection H as ->.
  - discriminate.
Qed.

Lemma at_never_raises {A : Type} (v : list A) (i : Z) (t : Thrown) :
  at_ v i <> Raise t.
Proof.
  unfold at_. destruct (i <? 0); [discriminate|].
  destruct (nth_error v (Z.to_nat i)); discriminate.
Qed.

Lemma set_never_raises {A : Type} (v : list A) (i : Z) (a : A) (t : Thrown) :
  set_ v i a <> Raise t.
Proof. unfold set_. destruct (_ || _); discriminate. Qed.

Lemma for_state_raise {S : Type} (l : list Z) (body : Z -> S -> Run S)
  (s : S) (t : Thrown) :
  for_state l body s = Raise t -> exists i s', body i s' = Raise t.
Proof.
  revert s. induction l as [|i l IH]; intros s; simpl; [discriminate|].
  intros H. apply bind_raise in H as [H|(s1 & _ & H)]; eauto.
Qed.

(** Takes apart a hypothesis that a sequence of reads, writes and loops
    raises. *)
Ltac raise_cases H :=
  repeat match type of H with
  | bind _ _ = Raise _ =>
      let a := fresh "a" in
      apply bind_raise in H as [H|(a & _ & H)]
  | at_ _ _ = Raise _ => exfalso; exact (at_never_raises _ _ _ H)
  | set_ _ _ _ = Raise _ => exfalso; exact (set_never_raises _ _ _ _ H)
  | (if ?c then _ else _) = Raise _ => destruct c
  | Done _ = Raise _ => discriminate H
  | Undefined = Raise _ => discriminate H
  end.

Section InputFileRaises.

Context {D : Type} {ops : DoubleOps D}.

Lemma check_monotone_raises (dNode : list D) (n : Z) (msg : string)
  (t : Thrown) :
  check_monotone dNode n msg = Raise t -> t = Exception msg.
Proof.
  unfold check_monotone. intros H.
  apply for_state_raise in H as (i & [] & H).
  raise_cases H. unfold _EXCEPTIONT in H. congruence.
Qed.

Lemma fill_midpoints_never_raises (dNode : list D) (n : Z) (dEdge : list D)
  (t : Thrown) :
  fill_midpoints dNode n dEdge <> Raise t.
Proof.
  unfold fill_midpoints. intros H.
  apply for_state_raise in H as (i & s & H). raise_cases H.
Qed.

Lemma to_radians_never_raises (n : Z) (dEdge : list D) (t : Thrown) :
  to_radians n dEdge <> Raise t.
Proof.
  unfold to_radians. intros H.
  apply for_state_raise in H as (i & s & H). raise_cases H.
Qed.

Lemma longitude_edges_never_raises (dLonNode : list D) (n : Z) (fg : bool)
  (t : Thrown) :
  longitude_edges dLonNode n fg <> Raise t.
Proof.
  unfold longitude_edges. intros H. raise_cases H;
    exact (fill_midpoints_never_raises _ _ _ _ H).
Qed.

Lemma latitude_edges_never_raises (dLatNode : list D) (n : Z) (t : Thrown) :
  latitude_edges dLatNode n <> Raise t.
Proof.
  unfold latitude_edges. intros H. raise_cases H;
    exact (fill_midpoints_never_raises _ _ _ _ H).
Qed.

(** X8: The input-file branch of GenerateRLLMesh never reports a missing
    variable [lat]: the test meant for it looks at the variable [lon]
    again.  A file that has everything but the variable [lat] makes the
    run use a null pointer, with no defined result. *)
Theorem rll_input_file_missing_lat (nc : NcInput) (strInputFile : string)
  (fForceGlobal : bool) :
  edges_from_file nc strInputFile fForceGlobal
  <> Raise (Exception (msg_missing "variable" "lat")) /\
  (forall nLongitudes nLatitudes dLonNode,
     is_valid nc = true ->
     dimLon nc = Some nLongitudes -> dimLat nc = Some nLatitudes ->
     varLon nc = Some dLonNode -> varLat nc = None ->
     2 <= nLongitudes -> 2 <= nLatitudes ->
     edges_from_file nc strInputFile fForceGlobal = Undefined).
Proof.
  split.
  - unfold edges_from_file. intros H.
    destruct (is_valid nc); cbn [negb] in H; [|discriminate H].
    destruct (dimLon nc) as [n|]; [|discriminate H].
    destruct (dimLat nc) as [m|]; [|discriminate H].
    destruct (varLon nc) as [lon|]; [|discriminate H].
    destruct (n <? 2); [discriminate H|].
    destruct (m <? 2); [discriminate H|].
    cbn [deref] in H.
    apply bind_raise in H as [H|(a1 & _ & H)]; [discriminate H|].
    apply bind_raise in H as [H|(a2 & _ & H)];
      [destruct (varLat nc); discriminate H|].
    apply bind_raise in H as [H|(a3 & _ & H)];
      [apply check_monotone_raises in H; discriminate H|].
    apply bind_raise in H as [H|(a4 & _ & H)];
      [apply check_monotone_raises in H; discriminate H|].
    apply bind_raise in H as [H|(a5 & _ & H)];
      [exact (longitude_edges_never_raises _ _ _ _ H)|].
    apply bind_raise in H as [H|(a6 & _ & H)];
      [exact (latitude_edges_never_raises _ _ _ H)|].
    apply bind_raise in H as [H|(a7 & _ & H)];
      [exact (to_radians_never_raises _ _ _ H)|].
    apply bind_raise in H as [H|(a8 & _ & H)];
      [exact (to_radians_never_raises _ _ _ H)|].
    discriminate H.
  - intros n m lon Hv HdLon HdLat HvLon HvLat Hn Hm.
    unfold edges_from_file. rewrite Hv, HdLon, HdLat, HvLon, HvLat.
    cbn [negb deref bind].
    destruct (Z.ltb_spec n 2); [lia|].
    destruct (Z.ltb_spec m 2); [lia|]. reflexivity.
Qed.

End InputFileRaises.

Lemma rll_input_file_missing_lat_witness :
  edges_from_file (ops := R_ops)
    (mkNcInput true (Some 2) (Some 2) (Some [0%R; 90%R]) None)
    "in.nc" false
  = Undefined.
Proof.
  apply (proj2 (rll_input_file_missing_lat (ops := R_ops)
                  (mkNcInput true (Some 2) (Some 2) (Some [0%R; 90%R]) None)
                  "in.nc" false) 2 2 [0%R; 90%R]);
    reflexivity || lia.
Defined.

(* ================================================================== *)
(** * GenerateRLLMesh: the latitude edges of an input file, exactly *)

Section InputFileLatitudes.

Local Open Scope R_scope.

Lemma first_latitude_edge_exact (n0 n1 : R) :
  first_latitude_edge (ops := R_ops) n0 n1
  = Rmax (-90) (n0 - / 2 * (n1 - n0)).
Proof.
  unfold first_latitude_edge. cbn [d_lt d_sub d_mul R_ops].
  rewrite lit_half, !lit_int. unfold Rltb, Rmax.
  destruct (Rlt_dec _ _); destruct (Rle_dec _ _); lra.
Qed.

Lemma last_latitude_edge_exact (nl2 nl : R) :
  last_latitude_edge (ops := R_ops) nl2 nl
  = Rmin 90 (nl + / 2 * (nl - nl2)).
Proof.
  unfold last_latitude_edge. cbn [d_lt d_add d_sub d_mul R_ops].
  rewrite lit_half, !lit_int. unfold Rltb, Rmin.
  destruct (Rlt_dec _ _); destruct (Rle_dec _ _); lra.
Qed.

Lemma midpoint_exact (a b : R) :
  midpoint (ops := R_ops) a b = / 2 * (a + b).
Proof. unfold midpoint. cbn [d_add d_mul R_ops]. now rewrite lit_half. Qed.

(** Steps that do not decrease add up. *)
Lemma steps_nondecreasing (g : Z -> R) (lo hi : Z) :
  (forall k, (lo <= k < hi)%Z -> g k <= g (k + 1)%Z) ->
  forall j k, (lo <= j <= k)%Z -> (k <= hi)%Z -> g j <= g k.
Proof.
  intros Hstep j k Hjk Hk.
  replace k with (j + Z.of_nat (Z.to_nat (k - j)))%Z by lia.
  assert (Z.of_nat (Z.to_nat (k - j)) <= k - j)%Z as Hb by lia.
  revert Hb. generalize (Z.to_nat (k - j)) as n.
  induction n as [|n IH]; intros Hb.
  - replace (j + Z.of_nat 0)%Z with j by lia. lra.
  - eapply Rle_trans; [apply IH; lia|].
    replace (j + Z.of_nat (S n))%Z with (j + Z.of_nat n + 1)%Z by lia.
    apply Hstep. lia.
Qed.

(** X9: In exact arithmetic, when the latitudes of an input file lie between
    -90 and 90 degrees, the latitude edges that the input-file branch
    builds never decrease from one entry to the next and lie between
    -pi/2 and pi/2. *)
Theorem rll_input_file_latitudes (nc : NcInput) (strInputFile : string)
  (fForceGlobal : bool) (nLongitudes nLatitudes : Z)
  (dLonNode dLatNode : list R) (ea : EdgeArrays) :
  is_valid nc = true ->
  dimLon nc = Some nLongitudes -> dimLat nc = Some nLatitudes ->
  varLon nc = Some dLonNode -> varLat nc = Some dLatNode ->
  (2 <= nLongitudes <= GetRows dLonNode)%Z ->
  (2 <= nLatitudes <= GetRows dLatNode)%Z ->
  (forall k, (0 <= k < nLatitudes)%Z ->
     -90 <= nth (Z.to_nat k) dLatNode 0 <= 90) ->
  edges_from_file (ops := R_ops) nc strInputFile fForceGlobal = Done ea ->
  (forall k e, (0 <= k <= nLatitudes)%Z ->
     at_ (ea_dLatEdge ea) k = Done e -> - (PI / 2) <= e <= PI / 2) /\
  (forall j k a b, (0 <= j <= k)%Z -> (k <= nLatitudes)%Z ->
     at_ (ea_dLatEdge ea) j = Done a -> at_ (ea_dLatEdge ea) k = Done b ->
     a <= b).
Proof.
  intros Hv HdLon HdLat HvLon HvLat Hn Hm Hrange Hea.
  destruct (edges_from_file_spec (ops := R_ops) nc strInputFile fForceGlobal
              nLongitudes nLatitudes dLonNode dLatNode 0
              Hv HdLon HdLat HvLon HvLat Hn Hm)
    as [[E _]|[[E _]|(ea' & E & _ & Hmono & _ & _ & _ & _ & E0 & El & Ek)]];
    try congruence.
  assert (ea' = ea) as -> by congruence.
  set (node := fun k : Z => nth (Z.to_nat k) dLatNode 0).
  assert (forall k, (0 <= k < nLatitudes - 1)%Z -> node k <= node (k + 1)%Z)
    as Hnode.
  { intros k Hk. specialize (Hmono k Hk).
    destruct (Rle_dec (node k) (node (k + 1)%Z)) as [|Hgt]; [assumption|].
    exfalso. apply Hmono. exists (node k), (node (k + 1)%Z).
    unfold node.
    rewrite (at_nth dLatNode k 0), (at_nth dLatNode (k + 1) 0) by lia.
    repeat split. apply Rltb_true. unfold node in Hgt. lra. }
  set (g := fun k : Z =>
         if (k =? 0)%Z then Rmax (-90) (node 0%Z - / 2 * (node 1%Z - node 0%Z))
         else if (k =? nLatitudes)%Z
              then Rmin 90 (node (nLatitudes - 1)%Z
                            + / 2 * (node (nLatitudes - 1)%Z
                                     - node (nLatitudes - 2)%Z))
              else / 2 * (node (k - 1)%Z + node k)).
  assert (forall k, (0 <= k <= nLatitudes)%Z ->
            at_ (ea_dLatEdge ea) k = Done (g k * (PI / 180))) as Hat.
  { intros k Hk. subst g. cbn beta.
    destruct (Z.eqb_spec k 0) as [->|H0].
    - rewrite E0, deg2rad_exact, first_latitude_edge_exact. reflexivity.
    - destruct (Z.eqb_spec k nLatitudes) as [->|Hl].
      + rewrite El, deg2rad_exact, last_latitude_edge_exact. reflexivity.
      + rewrite Ek by lia. rewrite deg2rad_exact, midpoint_exact.
        reflexivity. }
  assert (forall k, (0 <= k < nLatitudes)%Z -> -90 <= node k <= 90)
    as Hr by exact Hrange.
  assert (forall k, (0 <= k <= nLatitudes)%Z -> -90 <= g k <= 90) as Hg.
  { intros k Hk. subst g. cbn beta.
    pose proof (Hr 0%Z ltac:(lia)). pose proof (Hr 1%Z ltac:(lia)).
    pose proof (Hnode 0%Z ltac:(lia)) as H01. simpl in H01.
    pose proof (Hr (nLatitudes - 1)%Z ltac:(lia)).
    pose proof (Hr (nLatitudes - 2)%Z ltac:(lia)).
    pose proof (Hnode (nLatitudes - 2)%Z ltac:(lia)) as Hll.
    replace (nLatitudes - 2 + 1)%Z with (nLatitudes - 1)%Z in Hll by lia.
    destruct (Z.eqb_spec k 0).
    - unfold Rmax. destruct (Rle_dec _ _); lra.
    - destruct (Z.eqb_spec k nLatitudes).
      + unfold Rmin. destruct (Rle_dec _ _); lra.
      + pose proof (Hr (k - 1)%Z ltac:(lia)). pose proof (Hr k ltac:(lia)).
        lra. }
  assert (forall k, (0 <= k < nLatitudes)%Z -> g k <= g (k + 1)%Z) as Hstep.
  { intros k Hk. subst g. cbn beta.
    destruct (Z.eqb_spec (k + 1) 0); [lia|].
    destruct (Z.eqb_spec k nLatitudes); [lia|].
    replace (k + 1 - 1)%Z with k by lia.
    destruct (Z.eqb_spec k 0) as [->|H0].
    - pose proof (Hr 0%Z ltac:(lia)). pose proof (Hr 1%Z ltac:(lia)).
      pose proof (Hnode 0%Z ltac:(lia)) as H01. simpl in H01.
      destruct (Z.eqb_spec (0 + 1) nLatitudes); [lia|]. simpl.
      unfold Rmax. destruct (Rle_dec _ _); lra.
    - pose proof (Hnode (k - 1)%Z ltac:(lia)) as Hk1.
      replace (k - 1 + 1)%Z with k in Hk1 by lia.
      destruct (Z.eqb_spec (k + 1) nLatitudes) as [El'|El'].
      + replace (nLatitudes - 1)%Z with k by lia.
        replace (nLatitudes - 2)%Z with (k - 1)%Z by lia.
        pose proof (Hr (k - 1)%Z ltac:(lia)). pose proof (Hr k ltac:(lia)).
        unfold Rmin. destruct (Rle_dec _ _); lra.
      + pose proof (Hnode k ltac:(lia)). lra. }
  pose proof PI_RGT_0 as Hpi.
  split.
  - intros k e Hk He. rewrite Hat in He by exact Hk. injection He as <-.
    pose proof (Hg k Hk). split; nra.
  - intros j k a b Hjk Hk Ha Hb.
    rewrite Hat in Ha, Hb by lia. injection Ha as <-. injection Hb as <-.
    pose proof (steps_nondecreasing g 0 nLatitudes Hstep j k Hjk Hk). nra.
Qed.

Lemma rll_input_file_latitudes_witness :
  exists ea,
    edges_from_file (ops := R_ops)
      (mkNcInput true (Some 2%Z) (Some 2%Z)
         (Some [0; 180]) (Some [-45; 45])) "in.nc" false = Done ea /\
    forall k e, (0 <= k <= 2)%Z ->
      at_ (ea_dLatEdge ea) k = Done e -> - (PI / 2) <= e <= PI / 2.
Proof.
  destruct (edges_from_file_spec (ops := R_ops)
              (mkNcInput true (Some 2%Z) (Some 2%Z)
                 (Some [0; 180]) (Some [-45; 45])) "in.nc" false
              2 2 [0; 180] [-45; 45] 0)
    as [[_ (i & Hi & a & b & Ea & Eb & Hlt)]
       |[[_ (_ & j & Hj & a & b & Ea & Eb & Hlt)]|(ea & E & _)]];
    try reflexivity; try (unfold GetRows; simpl; lia).
  - exfalso. assert (i = 0%Z) as -> by lia.
    injection Ea as <-. injection Eb as <-.
    unfold d_lt, R_ops, Rltb in Hlt. destruct (Rlt_dec _ _); [lra|discriminate].
  - exfalso. assert (j = 0%Z) as -> by lia.
    injection Ea as <-. injection Eb as <-.
    unfold d_lt, R_ops, Rltb in Hlt. destruct (Rlt_dec _ _); [lra|discriminate].
  - exists ea. split; [exact E|].
    apply (rll_input_file_latitudes
             (mkNcInput true (Some 2%Z) (Some 2%Z)
                (Some [0; 180]) (Some [-45; 45])) "in.nc" false
             2 2 [0; 180] [-45; 45] ea);
      try reflexivity; try (unfold GetRows; simpl; lia); try exact E.
    intros k Hk. assert (k = 0 \/ k = 1)%Z as [-> | ->] by lia; simpl; lra.
Defined.

End InputFileLatitudes.

(* ================================================================== *)
(** * GenerateTestData: dimensions, indices and sample points *)

Import GenerateTestData.
Import GenerateTestDataLayout.

(* ================================================================== *)
(** * GenerateTestData: the index under [--fliprectilinear] *)

Lemma int_of_long_small (v : Z) :
  -2147483648 <= v <= 2147483647 -> int_of_long v = v.
Proof. intros H. unfold int_of_long. rewrite Z.mod_small; lia. Qed.

Lemma long_ok_small (v : Z) :
  -2147483648 <= v <= 2147483647 -> long_ok v = true.
Proof.
  intros H. unfold long_ok.
  destruct (Z.leb_spec (-9223372036854775808) v); [|lia].
  destruct (Z.leb_spec v 9223372036854775807); [reflexivity|lia].
Qed.

Lemma flip_index_value (d0 d1 : Z) (rest : list Z) (i : Z) :
  0 < d0 -> 0 < d1 -> d0 * d1 <= 2147483647 -> 0 <= i < d0 * d1 ->
  flip_index (d0 :: d1 :: rest) i = Done (Z.rem i d0 * d1 + Z.quot i d0) /\
  0 <= Z.rem i d0 < d0 /\ 0 <= Z.quot i d0 < d1.
Proof.
  intros H0 H1 Hmax Hi.
  pose proof (Z.rem_bound_pos i d0 ltac:(lia) H0) as Hr.
  assert (0 <= Z.quot i d0 < d1) as Hq.
  { split; [apply Z.quot_pos; lia|].
    apply Z.quot_lt_upper_bound; lia. }
  split; [|split; assumption].
  unfold flip_index.
  change (at_ (d0 :: d1 :: rest) 0) with (Done (A := Z) d0).
  change (at_ (d0 :: d1 :: rest) 1) with (Done (A := Z) d1).
  cbn [bind].
  destruct (Z.eqb_spec d0 0); [lia|].
  rewrite (int_of_long_small (Z.rem i d0)) by nia.
  rewrite (int_of_long_small (Z.quot i d0)) by nia.
  rewrite (long_ok_small (Z.rem i d0 * d1)) by nia.
  rewrite (long_ok_small (Z.rem i d0 * d1 + Z.quot i d0)) by nia.
  cbn [andb].
  rewrite int_of_long_small by nia. reflexivity.
Qed.

Lemma flip_index_round_trip (d0 d1 : Z) (rest : list Z) (i : Z) :
  0 < d0 -> 0 < d1 -> d0 * d1 <= 2147483647 -> 0 <= i < d0 * d1 ->
  exists iv,
    flip_index (d0 :: d1 :: rest) i = Done iv /\
    0 <= iv < d0 * d1 /\
    flip_index (d1 :: d0 :: rest) iv = Done i.
Proof.
  intros H0 H1 Hmax Hi.
  destruct (flip_index_value d0 d1 rest i H0 H1 Hmax Hi) as (E & Hr & Hq).
  pose proof (Z.quot_rem' i d0) as Hqr.
  set (iv := Z.rem i d0 * d1 + Z.quot i d0) in *.
  assert (0 <= iv < d0 * d1) as Hiv by (unfold iv; nia).
  exists iv. split; [exact E|]. split; [exact Hiv|].
  destruct (flip_index_value d1 d0 rest iv) as (E' & _ & _); try lia.
  rewrite E'. f_equal.
  rewrite <- (Z.rem_unique iv d1 (Z.rem i d0) (Z.quot i d0))
    by (unfold iv; nia).
  rewrite <- (Z.quot_unique iv d1 (Z.rem i d0) (Z.quot i d0))
    by (unfold iv; nia).
  lia.
Qed.

(** X10: Under [--fliprectilinear], with two positive leading output
    dimensions [d0] and [d1] whose product fits an [int], the index of a
    face among [d0 * d1] faces moves to [(i % d0) * d1 + i / d0], an
    index below [d0 * d1] again; the same computation with the two
    dimensions exchanged moves it back, and no two faces are written to
    the same place. *)
Theorem flip_index_in_range (d0 d1 : Z) (rest : list Z) :
  0 < d0 -> 0 < d1 -> d0 * d1 <= 2147483647 ->
  (forall i, 0 <= i < d0 * d1 ->
     exists iv,
       flip_index (d0 :: d1 :: rest) i = Done iv /\
       0 <= iv < d0 * d1 /\
       iv = Z.rem i d0 * d1 + Z.quot i d0 /\
       flip_index (d1 :: d0 :: rest) iv = Done i) /\
  (forall i i', 0 <= i < d0 * d1 -> 0 <= i' < d0 * d1 ->
     flip_index (d0 :: d1 :: rest) i = flip_index (d0 :: d1 :: rest) i' ->
     i = i').
Proof.
  intros H0 H1 Hmax. split.
  - intros i Hi.
    destruct (flip_index_value d0 d1 rest i H0 H1 Hmax Hi) as (E & _ & _).
    destruct (flip_index_round_trip d0 d1 rest i H0 H1 Hmax Hi)
      as (iv & E' & Hiv & Eback).
    exists iv. split; [exact E'|]. split; [exact Hiv|].
    split; [|exact Eback].
    rewrite E in E'. now injection E'.
  - intros i i' Hi Hi' E.
    destruct (flip_index_round_trip d0 d1 rest i H0 H1 Hmax Hi)
      as (iv & Ei & _ & Bi).
    destruct (flip_index_round_trip d0 d1 rest i' H0 H1 Hmax Hi')
      as (iv' & Ei' & _ & Bi').
    rewrite Ei, Ei' in E. injection E as ->.
    rewrite Bi in Bi'. now injection Bi'.
Qed.

Lemma flip_index_in_range_witness :
  flip_index [3; 2] 4 = Done 3 /\ flip_index [2; 3] 3 = Done 4.
Proof.
  destruct (flip_index_in_range 3 2 []) as [H _]; [lia | lia | lia |].
  destruct (H 4) as (iv & E & _ & -> & Eback); [lia|].
  split; [exact E | exact Eback].
Defined.

(* ================================================================== *)
(** * GenerateTestData: the sub-triangles of a face *)

Section SubTriangles.

Context {D : Type}.

Lemma face_at_in_range (face : Face) (k : Z) :
  0 <= k < GetRows (edges face) ->
  exists ix, face_at face k = Done ix /\ In ix (Face_nodes face).
Proof.
  intros H. unfold face_at.
  destruct (at_in_range (edges face) k H) as (e & E). rewrite E. simpl.
  exists (node0 e). split; [reflexivity|].
  apply in_map. eapply at_Done_In; eassumption.
Qed.

Lemma sub_triangle_in_range (nodes : list (Node D)) (face : Face) (j : Z) :
  0 <= j -> j + 2 < GetRows (edges face) ->
  (forall ix, In ix (Face_nodes face) -> 0 <= ix < GetRows nodes) ->
  exists t, sub_triangle nodes face j = Done t.
Proof.
  intros Hj Hn Hix. unfold sub_triangle.
  destruct (face_at_in_range face 0 ltac:(lia)) as (i0 & -> & H0).
  cbn [bind].
  destruct (at_in_range nodes i0 (Hix i0 H0)) as (n0 & ->). cbn [bind].
  destruct (face_at_in_range face (j + 1) ltac:(lia)) as (i1 & -> & H1).
  cbn [bind].
  destruct (at_in_range nodes i1 (Hix i1 H1)) as (n1 & ->). cbn [bind].
  destruct (face_at_in_range face (j + 2) ltac:(lia)) as (i2 & -> & H2).
  cbn [bind].
  destruct (at_in_range nodes i2 (Hix i2 H2)) as (n2 & ->). cbn [bind].
  eauto.
Qed.

(** X11: The loop over the sub-triangles of a face runs
    [face.edges.size() - 2] times, in unsigned arithmetic: a face of
    [n >= 2] edges whose node indices are node indices of the mesh gives
    [n - 2] sub-triangles, all read in range; a face of fewer than two
    edges makes the bound wrap around, and the first iteration reads the
    face out of range. *)
Theorem sub_triangles_of_face (nodes : list (Node D)) (face : Face) :
  (2 <= GetRows (edges face) < size_t_modulus ->
   (forall ix, In ix (Face_nodes face) -> 0 <= ix < GetRows nodes) ->
   exists ts,
     sub_triangles nodes face = Done ts /\
     GetRows ts = GetRows (edges face) - 2) /\
  (GetRows (edges face) < 2 -> sub_triangles nodes face = Undefined).
Proof.
  split.
  - intros Hn Hix. unfold sub_triangles, sub_triangle_count.
    rewrite Z.mod_small by lia.
    destruct (for_each_total (for_range 0 (GetRows (edges face) - 2))
                (fun j => t <- sub_triangle nodes face j ;; Done [t]))
      as (ts & E).
    + intros j Hj. apply in_for_range in Hj.
      destruct (sub_triangle_in_range nodes face j) as (t & ->);
        try lia; auto.
      simpl. eauto.
    + exists ts. split; [exact E|]. unfold GetRows at 1.
      rewrite (for_each_length _ _ 1%nat _ E).
      * rewrite length_for_range. lia.
      * intros j rj _ Hj.
        destruct (sub_triangle nodes face j); simpl in Hj; try discriminate.
        now injection Hj as <-.
  - intros Hn. unfold sub_triangles, sub_triangle_count.
    assert (0 < (GetRows (edges face) - 2) mod size_t_modulus) as Hpos.
    { assert (GetRows (edges face) = 0 \/ GetRows (edges face) = 1)
        as [-> | ->] by (unfold GetRows in *; lia); reflexivity. }
    rewrite for_range_cons by exact Hpos. cbn [for_each].
    assert (sub_triangle nodes face 0 = Undefined) as ->; [|reflexivity].
    unfold sub_triangle, face_at.
    destruct (edges face) as [|e [|e' es]] eqn:Ee;
      [reflexivity| |unfold GetRows in Hn; simpl in Hn; lia].
    change (at_ [e] 0) with (Done e). cbn [bind].
    destruct (at_ nodes (node0 e)) eqn:En; cbn [bind]; try reflexivity.
    exfalso. exact (at_never_raises _ _ _ En).
Qed.

End SubTriangles.

Lemma sub_triangles_of_face_witness :
  sub_triangles
    [mkNode 1%R 0%R 0%R; mkNode 0%R 1%R 0%R; mkNode 0%R 0%R 1%R]
    (mkFace [mkEdge 0 1 Type_GreatCircle; mkEdge 1 2 Type_GreatCircle;
             mkEdge 2 0 Type_GreatCircle])
  = Done [(mkNode 1%R 0%R 0%R, mkNode 0%R 1%R 0%R, mkNode 0%R 0%R 1%R)].
Proof.
  destruct (sub_triangles_of_face
              [mkNode 1%R 0%R 0%R; mkNode 0%R 1%R 0%R; mkNode 0%R 0%R 1%R]
              (mkFace [mkEdge 0 1 Type_GreatCircle;
                       mkEdge 1 2 Type_GreatCircle;
                       mkEdge 2 0 Type_GreatCircle])) as [H _].
  destruct H as (ts & E & _).
  - unfold GetRows, size_t_modulus. simpl. lia.
  - intros ix [<-|[<-|[<-|[]]]]; unfold GetRows; simpl; lia.
  - reflexivity.
Defined.

(* ================================================================== *)
(** * GenerateTestData: the output dimensions *)

Lemma dims_of_grid_dims_inv (nc : NcMesh) (d : OutputDims) :
  dims_of_grid_dims nc = Done d ->
  List.length (vecOutputDimSizes d) = List.length (vecOutputDimNames d) /\
  GetRows (vecOutputDimSizes d) <= 2 /\
  (fRectilinear d = true -> GetRows (vecOutputDimSizes d) = 2).
Proof.
  unfold dims_of_grid_dims. destruct (varGridDims nc) as [dims|].
  - destruct (Z.eqb_spec (GetRows dims) 1) as [E|_].
    + intros [= <-]. simpl. unfold GetRows in *.
      repeat split; try lia; try discriminate.
    + destruct (Z.eqb_spec (GetRows dims) 2) as [E|_]; [|discriminate].
      intros [= <-]. simpl. unfold GetRows in *. repeat split; lia.
  - intros [= <-]. simpl. unfold GetRows. simpl.
    repeat split; try lia; try discriminate.
Qed.

Lemma dims_of_attributes_inv (nc : NcMesh) (d d' : OutputDims) :
  dims_of_attributes nc d = Done d' ->
  List.length (vecOutputDimSizes d) = List.length (vecOutputDimNames d) ->
  (fRectilinear d = true -> 2 <= GetRows (vecOutputDimSizes d)) ->
  List.length (vecOutputDimSizes d') = List.length (vecOutputDimNames d') /\
  GetRows (vecOutputDimSizes d) <= GetRows (vecOutputDimSizes d')
    <= GetRows (vecOutputDimSizes d) + 2 /\
  (fRectilinear d' = true -> 2 <= GetRows (vecOutputDimSizes d')).
Proof.
  unfold dims_of_attributes. intros H Hlen Hrect.
  destruct (attRectilinear nc).
  - destruct (att_dim0_size nc); cbn [deref bind] in H; [|discriminate].
    destruct (att_dim1_size nc); cbn [deref bind] in H; [|discriminate].
    destruct (att_dim0_name nc); cbn [deref bind] in H; [|discriminate].
    destruct (att_dim1_name nc); cbn [deref bind] in H; [|discriminate].
    injection H as <-. simpl. unfold GetRows in *.
    rewrite !length_app. simpl. repeat split; lia.
  - injection H as <-. repeat split; auto; lia.
Qed.

(** X12: Whenever GenerateTestData gets past the computation of the output
    dimensions, there are as many dimension names as dimension sizes, at
    least one and at most five; with [--homme] there are at least two, so
    that the dimension of the latitude, longitude and area variables
    exists; [--fliprectilinear] has a rectilinear mesh with two
    dimensions to flip; and [--gll] has a mesh that is not rectilinear. *)
Theorem output_dims_invariant (nc : NcMesh) (nFaces : Z)
  (a : GenerateTestData.Args) (d : OutputDims) :
  output_dims nc nFaces a = Done d ->
  List.length (vecOutputDimSizes d) = List.length (vecOutputDimNames d) /\
  1 <= GetRows (vecOutputDimSizes d) <= 5 /\
  (fHOMMEFormat a = true -> 2 <= GetRows (vecOutputDimSizes d)) /\
  (fFlipRectilinear a = true ->
   fRectilinear d = true /\ 2 <= GetRows (vecOutputDimSizes d)) /\
  (fGLL a = true -> fRectilinear d = false).
Proof.
  unfold output_dims. intros H.
  destruct (dims_of_grid_dims nc) as [d1| |] eqn:E1; cbn [bind] in H;
    try discriminate.
  destruct (dims_of_grid_dims_inv nc d1 E1) as (L1 & R1 & Q1).
  destruct (dims_of_attributes nc d1) as [d2| |] eqn:E2; cbn [bind] in H;
    try discriminate.
  destruct (dims_of_attributes_inv nc d1 d2 E2 L1 ltac:(intros; rewrite Q1; auto; lia))
    as (L2 & R2 & Q2).
  set (d3 := if GetRows (vecOutputDimSizes d2) =? 0
             then push_dim d2 nFaces "ncol" else d2) in *.
  assert (List.length (vecOutputDimSizes d3)
          = List.length (vecOutputDimNames d3) /\
          1 <= GetRows (vecOutputDimSizes d3) <= 4 /\
          (fRectilinear d3 = true -> 2 <= GetRows (vecOutputDimSizes d3)))
    as (L3 & R3 & Q3).
  { subst d3. destruct (Z.eqb_spec (GetRows (vecOutputDimSizes d2)) 0).
    - unfold push_dim. simpl. unfold GetRows in *.
      rewrite !length_app. simpl. repeat split; try lia.
      intros Hr. specialize (Q2 Hr). lia.
    - unfold GetRows in *. repeat split; auto; lia. }
  destruct (fFlipRectilinear a) eqn:Ef, (fRectilinear d3) eqn:Er;
    cbn [andb negb] in H; try discriminate;
    destruct (fGLL a) eqn:Eg; cbn [andb] in H; try discriminate;
    injection H as <-;
    destruct (fHOMMEFormat a); unfold push_dim; simpl;
    unfold GetRows in *; rewrite ?length_app; simpl;
    repeat split; intros; try discriminate; auto; try lia;
    try (specialize (Q3 eq_refl); lia).
Qed.

Lemma output_dims_invariant_witness :
  exists d,
    output_dims (mkNcMesh (Some [4; 2]) false None None None None) 8
      (GenerateTestData.mkArgs "mesh.nc" 1 false false 4 true "Psi"
         "testdata.nc" true false) = Done d /\
    vecOutputDimSizes d = [4; 2; 1] /\
    List.length (vecOutputDimSizes d) = List.length (vecOutputDimNames d).
Proof.
  eexists. split; [reflexivity|]. split; [reflexivity|].
  apply (output_dims_invariant
           (mkNcMesh (Some [4; 2]) false None None None None) 8
           (GenerateTestData.mkArgs "mesh.nc" 1 false false 4 true "Psi"
              "testdata.nc" true false)).
  reflexivity.
Defined.

(* ================================================================== *)
(** * GenerateRLLMesh and GenerateTestData together *)





(* ================================================================== *)
(** * GenerateTestData: the values of the test functions *)

Section Powers.

Local Open Scope R_scope.

Lemma Int_part_IZR (n : Z) : Int_part (IZR n) = n.
Proof. symmetry. apply Int_part_spec. lra. Qed.

Lemma pow_16_bound (a : R) : -1 <= a <= 1 -> 0 <= a ^ 16 <= 1.
Proof.
  intros H. replace (a ^ 16) with ((a * a) ^ 8) by ring.
  assert (0 <= a * a <= 1) as H2 by nra.
  split; [apply pow_le; lra|].
  rewrite <- (pow1 8). apply pow_incr. exact H2.
Qed.

End Powers.

Section TestValues.

Local Open Scope R_scope.

Variable rnd : R -> R.
Variable ops : DoubleOps R.
Hypothesis Hr : rounded rnd ops.

Lemma rounded_product_within_1 (a b : R) :
  -1 <= a <= 1 -> -1 <= b <= 1 -> -1 <= d_mul a b <= 1.
Proof.
  intros Ha Hb. rewrite (rd_mul rnd ops Hr).
  apply (rnd_between rnd ops Hr (-1) 1); [lia | lia |]. nra.
Qed.

Lemma rounded_two_plus (a : R) :
  -1 <= a <= 1 -> 1 <= d_add (d_lit 2 0) a <= 3.
Proof.
  intros Ha. rewrite (rd_add rnd ops Hr), (rd_lit rnd ops Hr 2) by lia.
  apply (rnd_between rnd ops Hr 1 3); [lia | lia |]. lra.
Qed.

Lemma Y2b2_value (dLon dLat : R) :
  exists v, Y2b2 dLon dLat = Some v /\ 1 <= v <= 3.
Proof.
  unfold Y2b2. eexists. split; [reflexivity|].
  apply rounded_two_plus. apply rounded_product_within_1.
  - rewrite (rd_mul rnd ops Hr).
    pose proof (rd_cos rnd ops Hr dLat) as Hc.
    assert (0 <= rnd (d_cos dLat * d_cos dLat) <= 1)
      by (apply (rnd_between rnd ops Hr 0 1); [lia | lia | nra]).
    lra.
  - apply (rd_cos rnd ops Hr).
Qed.

Lemma Y16b32_value (dLon dLat : R) :
  exists v, Y16b32 dLon dLat = Some v /\ 1 <= v <= 3.
Proof.
  unfold Y16b32. eexists. split; [reflexivity|].
  apply rounded_two_plus. apply rounded_product_within_1.
  - assert (0 <= d_pow (d_sin (d_mul (d_lit 2 0) dLat)) (d_lit 16 0) <= 1)
      as Hp; [|lra].
    apply (rd_pow rnd ops Hr).
    rewrite (rd_lit rnd ops Hr 16) by lia.
    unfold Rpow. rewrite Int_part_IZR.
    destruct (Req_dec_T (IZR 16) (IZR 16)) as [_|N]; [|contradiction].
    apply (pow_16_bound _ (rd_sin rnd ops Hr _)).
  - apply (rd_cos rnd ops Hr).
Qed.

(** X14: For doubles that round monotonically (the model [rounded]), the
    two harmonics and the constant function have a value at every
    (longitude, latitude): between 1 and 3 for Y2b2 and Y16b32, and 1
    for the constant function.  The stationary vortex is left out: its
    value goes through [asin] of a sum of products (lines 137 and 143)
    that the model does not keep within [-1, 1]. *)
Theorem test_function_values (pTest : TestFunction) (dLon dLat : R) :
  pTest <> TestFunctionVortex ->
  exists v,
    evaluate pTest dLon dLat = Some v /\
    match pTest with
    | TestFunction1 => v = 1
    | _ => 1 <= v <= 3
    end.
Proof.
  intros Hv. destruct pTest; cbn [evaluate].
  - apply Y2b2_value.
  - apply Y16b32_value.
  - eexists. split; [reflexivity|]. apply (rd_of_int rnd ops Hr 1). lia.
  - contradiction.
Qed.

End TestValues.

Lemma test_function_values_witness :
  exists v, evaluate (ops := R_ops) TestFunctionY16b32 0%R 0%R = Some v /\
            (1 <= v <= 3)%R.
Proof.
  apply (test_function_values (fun r => r) R_ops R_ops_rounded
           TestFunctionY16b32 0%R 0%R).
  discriminate.
Defined.

(* ================================================================== *)
(** * GenerateTestData: the longitudes of points *)

Section Longitudes.

Local Open Scope R_scope.

Variable rnd : R -> R.
Variable ops : DoubleOps R.
Hypothesis Hr : rounded rnd ops.

(** A longitude brought to [0, 2.0 * M_PI] as the program does it. *)
Lemma normalised_longitude (b a : R) :
  let dLon := d_atan2 b a in
  0 <= (if d_lt dLon (d_lit 0 0)
        then d_add dLon (d_mul (d_lit 2 0) M_PI) else dLon)
    <= d_mul (d_lit 2 0) M_PI.
Proof.
  cbn zeta. pose proof (rd_atan2 rnd ops Hr b a) as Hat.
  pose proof (M_PI_nonneg rnd ops Hr) as Hpi.
  rewrite (rd_lt rnd ops Hr), (rd_mul rnd ops Hr).
  rewrite (rd_lit rnd ops Hr 0), (rd_lit rnd ops Hr 2) by lia.
  assert (M_PI <= rnd (2 * M_PI)) as Htwo.
  { rewrite <- (M_PI_rounded rnd ops Hr) at 1.
    apply (rnd_monotone rnd ops Hr). lra. }
  unfold Rltb. destruct (Rlt_dec (d_atan2 b a) 0) as [Hneg|Hpos].
  - rewrite (rd_add rnd ops Hr). split.
    + rewrite <- (rnd_0 rnd ops Hr). apply (rnd_monotone rnd ops Hr). lra.
    + rewrite <- (rnd_idempotent rnd ops Hr (2 * M_PI)) at 2.
      apply (rnd_monotone rnd ops Hr). lra.
  - lra.
Qed.

(** X15: For doubles that round monotonically (the model [rounded]), the
    longitude that [RotatedSphereCoord] returns, and the longitude
    computed for a sample point, lie between 0 and [2.0 * M_PI] as
    computed, both ends included: [atan2] gives a value in
    [-M_PI, M_PI], and a negative one is moved up by [2.0 * M_PI]. *)
Theorem longitudes_normalised (dLonC dLatC dLonT dLatT : R) (node : Node R) :
  0 <= fst (RotatedSphereCoord dLonC dLatC dLonT dLatT)
    <= d_mul (d_lit 2 0) M_PI /\
  0 <= fst (lon_lat node) <= d_mul (d_lit 2 0) M_PI.
Proof.
  split.
  - unfold RotatedSphereCoord. cbn [fst]. apply normalised_longitude.
  - unfold lon_lat. cbn [fst]. apply normalised_longitude.
Qed.

End Longitudes.

Lemma longitudes_normalised_witness :
  (0 <= fst (lon_lat (ops := R_ops) (mkNode 0 (-1) 0)) <= 2 * PI)%R.
Proof.
  destruct (longitudes_normalised (fun r => r) R_ops R_ops_rounded
              0%R 0%R 0%R 0%R (mkNode 0%R (-1)%R 0%R)) as [_ H].
  cbn [d_mul M_PI R_ops] in H. rewrite lit_int in H. exact H.
Defined.
